(** * evalml: CI workflows and the text-input demo notebook

    A shallow embedding of the three files of the repository:

    - [.github/workflows/release_notes_updated.yml]: the two shell steps
      "Debug PR type" and "Release notes added" become functions in a small
      shell monad; the utilities they call ([expr match], [[ .. -gt .. ]],
      [echo], [exit], [cat], [grep]) are modelled on the fragment of basic
      regular expressions the patterns are written in;
    - the unit-test workflow (linux, minimum dependencies): its trigger and
      matrix declarations are records, its scripts the text of the file;
    - [docs/source/demos/text_input.ipynb]: the code cells as a small
      Python syntax tree.

    The runner pastes the value of a workflow expression [${{ e }}] into
    the text of a script before the shell reads it: [shell_text] is that
    text, for any event. The commands of the two scripts are functions of
    the word the shell makes of the pasted head ref, and [read_pasted] says
    what that word is: the ref itself when it is made of printable
    characters other than the double quote, the dollar sign, the backquote
    and the backslash; the ref with [$#] expanded; no word but a refused
    script for a ref of plain characters around one double quote. For any
    other ref the embedding gives no run of the steps. *)

From Stdlib Require Import List String Ascii Arith Bool Lia.
From Stdlib Require Import DecimalString DecimalNat.
From stdpp Require Import gmap strings.
Import ListNotations.

Local Open Scope string_scope.
Local Open Scope list_scope.

(** The characters of a string. *)
Abbreviation chars := list_ascii_of_string.

(** ** Basic regular expressions

    The patterns of the workflow use ordinary characters, bracket
    expressions with ranges, the postfix [*] and GNU's postfix [\+].
    [parse] answers [None] on anything else. *)

Module Bre.

Inductive atom :=
| Chr (c : ascii)
| Bracket (ranges : list (ascii * ascii)).

Inductive quant := Once | Star | Plus.

Definition item : Type := atom * quant.
Definition bre : Type := list item.

(** The reader is one pass over the pattern; [acc] holds the items read so
    far, last one first. *)
Inductive pstate :=
| Top
| Esc
| InBracket (cs : list ascii).

(** The members of a bracket expression: [lo-hi] is a range, any other
    character stands for itself. *)
Fixpoint ranges_of (cs : list ascii) : list (ascii * ascii) :=
  match cs with
  | [] => []
  | lo :: tl =>
      match tl with
      | dash :: hi :: rest =>
          if Ascii.eqb dash "-" then (lo, hi) :: ranges_of rest
          else (lo, lo) :: ranges_of tl
      | _ => (lo, lo) :: ranges_of tl
      end
  end.

(** A postfix operator applies to the item just read. *)
Definition requantify (q : quant) (acc : list item) : option (list item) :=
  match acc with
  | (a, Once) :: acc' => Some ((a, q) :: acc')
  | _ => None
  end.

Definition is_nil {A : Type} (l : list A) : bool :=
  match l with [] => true | _ :: _ => false end.

Definition special (c : ascii) : bool :=
  existsb (Ascii.eqb c) ["\"; "["; "*"; "."; "^"; "$"]%char.

Fixpoint parse_from (st : pstate) (acc : list item) (s : list ascii)
  : option bre :=
  match s with
  | [] => match st with Top => Some (rev acc) | _ => None end
  | c :: r =>
      match st with
      | Top =>
          if Ascii.eqb c "\" then parse_from Esc acc r
          else if Ascii.eqb c "[" then parse_from (InBracket []) acc r
          else if Ascii.eqb c "*" then
            match requantify Star acc with
            | Some acc' => parse_from Top acc' r
            | None => None
            end
          else if special c then None
          else parse_from Top ((Chr c, Once) :: acc) r
      | Esc =>
          if Ascii.eqb c "+" then
            match requantify Plus acc with
            | Some acc' => parse_from Top acc' r
            | None => None
            end
          else None
      | InBracket cs =>
          if Ascii.eqb c "]" then
            match cs with
            | [] => None
            | _ => parse_from Top ((Bracket (ranges_of (rev cs)), Once) :: acc) r
            end
          else if Ascii.eqb c "[" then None
          else if Ascii.eqb c "^" && is_nil cs then None
          else parse_from (InBracket (c :: cs)) acc r
      end
  end.

Definition parse (s : string) : option bre :=
  parse_from Top [] (list_ascii_of_string s).

(** Characters are compared by code, as in the C locale. *)
Definition in_range (c : ascii) (r : ascii * ascii) : bool :=
  Nat.leb (nat_of_ascii (fst r)) (nat_of_ascii c)
  && Nat.leb (nat_of_ascii c) (nat_of_ascii (snd r)).

Definition atom_ok (a : atom) (c : ascii) : bool :=
  match a with
  | Chr x => Ascii.eqb x c
  | Bracket rs => existsb (in_range c) rs
  end.

(** Length of the longest prefix of [s] whose characters satisfy [p]. *)
Fixpoint span (p : ascii -> bool) (s : list ascii) : nat :=
  match s with
  | c :: r => if p c then S (span p r) else 0
  | [] => 0
  end.

(** [match_lens re s]: the lengths of the prefixes of [s] that [re]
    matches. *)
Fixpoint match_lens (re : bre) (s : list ascii) : list nat :=
  match re with
  | [] => [0]
  | (a, Once) :: re' =>
      match s with
      | c :: r => if atom_ok a c then map S (match_lens re' r) else []
      | [] => []
      end
  | (a, Star) :: re' =>
      flat_map (fun k => map (Nat.add k) (match_lens re' (skipn k s)))
               (seq 0 (S (span (atom_ok a) s)))
  | (a, Plus) :: re' =>
      flat_map (fun k => map (Nat.add k) (match_lens re' (skipn k s)))
               (seq 1 (span (atom_ok a) s))
  end.

(** The number [expr STRING : REGEX] prints: the length of the longest
    match anchored at the start of the string, 0 when there is none. *)
Definition longest (re : bre) (s : list ascii) : nat :=
  list_max (match_lens re s).

Fixpoint tails (s : list ascii) : list (list ascii) :=
  s :: match s with [] => [] | _ :: r => tails r end.

(** A line is selected by [grep] when the pattern matches somewhere in
    it. *)
Definition found_in (re : bre) (line : list ascii) : bool :=
  existsb (fun t => negb (is_nil (match_lens re t))) (tails line).

(** The pattern that is the text [m] itself. *)
Definition lit (m : list ascii) : bre := map (fun c => (Chr c, Once)) m.

(** What the pattern language denotes, for comparison with the matcher. *)
Inductive matches : bre -> list ascii -> Prop :=
| matches_nil : matches [] []
| matches_once a re c s :
    atom_ok a c = true -> matches re s -> matches ((a, Once) :: re) (c :: s)
| matches_star a re p s :
    Forall (fun c => atom_ok a c = true) p -> matches re s ->
    matches ((a, Star) :: re) (p ++ s)
| matches_plus a re p s :
    p <> [] -> Forall (fun c => atom_ok a c = true) p -> matches re s ->
    matches ((a, Plus) :: re) (p ++ s).

End Bre.

(** ** The shell

    A script runs under [bash -e]: commands act on a world (the checked-out
    files, what was written to standard output, the files opened so far),
    [exit] ends the script, and so does a command that fails outside a
    condition. *)

Module Sh.

(** What [expr] leaves on standard output: a number, or nothing after a
    syntax error. *)
Inductive expr_out :=
| SyntaxError
| Printed (n : nat).

(** A first operand that is one of these words is read by [expr] as an
    operator, and [expr match WORD REGEX] is then a syntax error. *)
Definition expr_keywords : list string :=
  ["+"; "length"; "match"; "index"; "substr"; "("; ")"].

Definition expr_match (s re : string) : expr_out :=
  if existsb (String.eqb s) expr_keywords then SyntaxError
  else
    match Bre.parse re with
    | Some r => Printed (Bre.longest r (list_ascii_of_string s))
    | None => SyntaxError
    end.

(** The operands of [-gt] are evaluated as arithmetic; an empty word is 0. *)
Definition arith_value (o : expr_out) : nat :=
  match o with
  | SyntaxError => 0
  | Printed n => n
  end.

Definition test_gt (o : expr_out) (k : nat) : bool :=
  Nat.ltb k (arith_value o).

(** What a script works on: the files, the lines its [echo] commands have
    written, and the files it has opened, in order. What [grep] writes is
    left out: it depends on the version of the tool and on the encoding of
    the file, and no step reads it. *)
Record world := World {
  files : gmap string string;
  echoed : list string;
  opened : list string
}.

Inductive result (A : Type) :=
| Done (a : A) (w : world)
| Exited (code : nat) (w : world).
Arguments Done {A} a w.
Arguments Exited {A} code w.

Definition sh (A : Type) : Type := world -> result A.

#[global] Instance sh_ret : MRet sh := fun A (a : A) w => Done a w.

#[global] Instance sh_bind : MBind sh :=
  fun A B (k : A -> sh B) (m : sh A) w =>
    match m w with
    | Done a w' => k a w'
    | Exited code w' => Exited code w'
    end.

Definition exit {A : Type} (code : nat) : sh A := fun w => Exited code w.

Definition echo (s : string) : sh nat :=
  fun w => Done 0 (World (files w) (echoed w ++ [s]) (opened w)).

(** [cat FILE]: the content and status 0, or nothing and status 1 when the
    file is missing. *)
Definition cat (path : string) : sh (string * nat) :=
  fun w =>
    let w' := World (files w) (echoed w) (opened w ++ [path]) in
    match files w !! path with
    | Some content => Done (content, 0) w'
    | None => Done ("", 1) w'
    end.

Definition newline : ascii := ascii_of_nat 10.

(** The lines of a text; a final newline ends the last line and starts no
    new one. *)
Fixpoint lines_from (cur : list ascii) (s : list ascii)
  : list (list ascii) :=
  match s with
  | [] => match cur with [] => [] | _ => [rev cur] end
  | c :: r =>
      if Ascii.eqb c newline then rev cur :: lines_from [] r
      else lines_from (c :: cur) r
  end.

Definition lines (s : string) : list (list ascii) :=
  lines_from [] (list_ascii_of_string s).

(** [grep PATTERN] on the text of its standard input: status 0 when a
    line is selected, 1 when none is, 2 when the pattern is refused. *)
Definition grep (pattern input : string) : sh nat :=
  fun w =>
    match Bre.parse pattern with
    | Some re =>
        Done (if existsb (Bre.found_in re) (lines input) then 0 else 1) w
    | None => Done 2 w
    end.

(** [producer | consumer]: the status is the consumer's. *)
Definition pipe (producer : sh (string * nat)) (consumer : string -> sh nat)
  : sh nat :=
  out ← producer; consumer (fst out).

(** A command at the top of a script: under [-e] a nonzero status ends the
    script with that status. *)
Definition run (c : sh nat) : sh unit :=
  st ← c; if Nat.eqb st 0 then mret tt else exit st.

(** The exit status of a script: that of [exit], or of the last command,
    which succeeded when the end is reached. *)
Definition status {A : Type} (r : result A) : nat :=
  match r with
  | Done _ _ => 0
  | Exited code _ => code
  end.

Definition final {A : Type} (r : result A) : world :=
  match r with
  | Done _ w => w
  | Exited _ w => w
  end.

Definition decimal (n : nat) : string :=
  NilEmpty.string_of_uint (Nat.to_uint n).

(** *** The text of a script

    What the shell must find closed when it reaches the end of a script:
    double and single quotes, command substitutions [$( .. )] and pairs of
    backquotes; a backslash quotes the next character, [#] at the start of
    a word opens a comment. Subshells and the braces of [${ .. }] are not
    followed: the scripts have none. *)
Inductive opening :=
| DoubleQuote
| SingleQuote
| CommandSubst
| Backquote.

Record lexer := Lexer {
  opened_by : list opening;
  escaped : bool;
  after_dollar : bool;
  in_comment : bool;
  word_start : bool
}.

Definition is_blank (c : ascii) : bool :=
  existsb (Ascii.eqb c) [" "; newline; ";"; "|"; "&"; "009"]%char.

Definition lex_char (st : lexer) (c : ascii) : lexer :=
  let stack := opened_by st in
  if in_comment st then
    Lexer stack false false (negb (Ascii.eqb c newline)) true
  else if escaped st then Lexer stack false false false false
  else
    match stack with
    | SingleQuote :: below =>
        if Ascii.eqb c "'" then Lexer below false false false false else st
    | Backquote :: below =>
        if Ascii.eqb c "`" then Lexer below false false false false
        else if Ascii.eqb c "\" then Lexer stack true false false false
        else Lexer stack false false false false
    | DoubleQuote :: below =>
        if Ascii.eqb c "034" then Lexer below false false false false
        else if Ascii.eqb c "\" then Lexer stack true false false false
        else if Ascii.eqb c "`" then
          Lexer (Backquote :: stack) false false false false
        else if Ascii.eqb c "$" then Lexer stack false true false false
        else if Ascii.eqb c "(" && after_dollar st then
          Lexer (CommandSubst :: stack) false false false true
        else Lexer stack false false false false
    | _ =>
        if Ascii.eqb c "034" then
          Lexer (DoubleQuote :: stack) false false false false
        else if Ascii.eqb c "'" then
          Lexer (SingleQuote :: stack) false false false false
        else if Ascii.eqb c "`" then
          Lexer (Backquote :: stack) false false false false
        else if Ascii.eqb c "\" then Lexer stack true false false false
        else if Ascii.eqb c "$" then Lexer stack false true false false
        else if Ascii.eqb c "(" && after_dollar st then
          Lexer (CommandSubst :: stack) false false false true
        else if Ascii.eqb c ")" then
          Lexer (match stack with CommandSubst :: below => below | _ => stack end)
                false false false false
        else if Ascii.eqb c "#" && word_start st then
          Lexer stack false false true false
        else Lexer stack false false false (is_blank c)
    end.

Definition lex (s : string) : lexer :=
  fold_left lex_char (chars s) (Lexer [] false false false true).

(** A script the shell refuses with a syntax error at its end: a quote or
    a command substitution is still open. *)
Definition unclosed (s : string) : bool :=
  negb (Bre.is_nil (opened_by (lex s))).

Definition double_quote : string := String "034" "".

Definition quoted (s : string) : string := double_quote +:+ s +:+ double_quote.

Definition unlines (ls : list string) : string :=
  fold_right (fun l rest => l +:+ String newline rest) "" ls.

(** *** A value pasted between double quotes

    The runner writes the value of an expression into the text of a script
    before the shell sees it. Between double quotes the shell takes every
    printable character for itself but four: the double quote ends the
    quoted text, and [$], the backquote and the backslash start an
    expansion or quote the next character. *)
Definition one_of (cs : string) (c : ascii) : bool :=
  existsb (Ascii.eqb c) (list_ascii_of_string cs).

Definition alphanumeric : ascii -> bool :=
  one_of "abcdefghijklmnopqrstuvwxyzABCDEFGHIJKLMNOPQRSTUVWXYZ0123456789".

Definition all_chars (p : ascii -> bool) (s : string) : Prop :=
  Forall (fun c => p c = true) (list_ascii_of_string s).

Definition plain_char (c : ascii) : bool := alphanumeric c || one_of "-_./" c.

Definition literal_in_quotes (c : ascii) : bool :=
  Nat.leb 32 (nat_of_ascii c) && Nat.ltb (nat_of_ascii c) 127
  && negb (existsb (Ascii.eqb c) ["034"; "$"; "`"; "\"]%char).

(** The word the shell makes of a pasted value. Of the expansions only
    [$#] is followed, the number of arguments of the script: the runner
    gives it none. *)
Fixpoint expand_quoted (cs : list ascii) : option (list ascii) :=
  match cs with
  | [] => Some []
  | c :: r =>
      if literal_in_quotes c then option_map (cons c) (expand_quoted r)
      else
        match r with
        | c2 :: r' =>
            if Ascii.eqb c "$" && Ascii.eqb c2 "#"
            then option_map (cons "0"%char) (expand_quoted r')
            else None
        | [] => None
        end
  end.

(** A value of plain characters around one double quote: the quote ends
    the quoted text, and the quote that was to end it opens another. *)
Definition lone_quote (value : string) : bool :=
  forallb (fun c => plain_char c || Ascii.eqb c "034")
          (list_ascii_of_string value)
  && Nat.eqb (count_occ Ascii.ascii_dec (list_ascii_of_string value)
                        "034"%char) 1.

(** How the shell reads a script into which a value was pasted between
    double quotes: the value becomes a word; or it leaves the quotes of the
    script unbalanced; or it holds something this embedding does not
    follow (another expansion, a backslash, several quotes, a character
    that is not printable). *)
Inductive reading :=
| Reads (word : string)
| Unbalanced
| Unread.

Definition read_pasted (value : string) : reading :=
  match expand_quoted (list_ascii_of_string value) with
  | Some word => Reads (string_of_list_ascii word)
  | None => if lone_quote value then Unbalanced else Unread
  end.

End Sh.

(** ** GitHub Actions: triggers, matrices, expressions *)

Module Actions.

Inductive trigger :=
| PullRequest (types : list string)
| Push (branches : list string).

Inductive event :=
| PullRequestEvent (action : string)
| PushEvent (branch : string).

Definition fires (t : trigger) (e : event) : bool :=
  match t, e with
  | PullRequest types, PullRequestEvent action =>
      existsb (String.eqb action) types
  | Push branches, PushEvent branch => existsb (String.eqb branch) branches
  | _, _ => false
  end.

Record strategy := Strategy {
  fail_fast : bool;
  matrix : list (string * list string)
}.

(** A step either uses an action or runs a script; [S] is what scripts are
    embedded as. *)
Record step (S : Type) := Step {
  step_name : string;
  uses : option string;
  with_args : list (string * string);
  script : option S
}.
Arguments Step {S} step_name uses with_args script.
Arguments step_name {S} s.
Arguments uses {S} s.
Arguments with_args {S} s.
Arguments script {S} s.

Record job (S : Type) := Job {
  job_id : string;
  job_name : string;
  runs_on : string;
  job_strategy : option strategy;
  steps : list (step S)
}.
Arguments Job {S} job_id job_name runs_on job_strategy steps.
Arguments job_id {S} j.
Arguments job_name {S} j.
Arguments runs_on {S} j.
Arguments job_strategy {S} j.
Arguments steps {S} j.

Record workflow (S : Type) := Workflow {
  name : string;
  on : list trigger;
  jobs : list (job S)
}.
Arguments Workflow {S} name on jobs.
Arguments name {S} w.
Arguments on {S} w.
Arguments jobs {S} w.

Definition triggered_by {S : Type} (w : workflow S) (e : event) : bool :=
  existsb (fun t => fires t e) (on w).

(** One instance per combination of the axes' values; the first axis
    varies slowest. *)
Fixpoint combinations (axes : list (string * list string))
  : list (list (string * string)) :=
  match axes with
  | [] => [[]]
  | (k, vs) :: rest =>
      flat_map (fun v => map (cons (k, v)) (combinations rest)) vs
  end.

(** [matrix.k] in an instance; a name that is not set is the empty
    string. *)
Definition matrix_context (combo : list (string * string)) (e : string)
  : string :=
  match find (fun kv => String.eqb e ("matrix." +:+ fst kv)) combo with
  | Some kv => snd kv
  | None => ""
  end.

Fixpoint drop_spaces (s : list ascii) : list ascii :=
  match s with
  | c :: r => if Ascii.eqb c " " then drop_spaces r else s
  | [] => []
  end.

Definition trim (s : list ascii) : list ascii :=
  rev (drop_spaces (rev (drop_spaces s))).

(** Replaces every [${{ e }}] of a text by the value of [e]. *)
Fixpoint subst_from (ctx : string -> string) (inside : option (list ascii))
  (s : list ascii) : list ascii :=
  match s with
  | [] => []
  | c :: r =>
      match inside with
      | None =>
          match r with
          | c2 :: c3 :: r' =>
              if Ascii.eqb c "$" && Ascii.eqb c2 "{" && Ascii.eqb c3 "{"
              then subst_from ctx (Some []) r'
              else c :: subst_from ctx None r
          | _ => c :: subst_from ctx None r
          end
      | Some acc =>
          match r with
          | c2 :: r' =>
              if Ascii.eqb c "}" && Ascii.eqb c2 "}"
              then list_ascii_of_string
                     (ctx (string_of_list_ascii (trim (rev acc))))
                   ++ subst_from ctx None r'
              else subst_from ctx (Some (c :: acc)) r
          | [] => []
          end
      end
  end.

Definition substitute (ctx : string -> string) (s : string) : string :=
  string_of_list_ascii (subst_from ctx None (list_ascii_of_string s)).

(** The instances of a job and what each one is to run. *)
Definition instances {S : Type} (j : job S) : list (list (string * string)) :=
  match job_strategy j with
  | Some st => combinations (matrix st)
  | None => [[]]
  end.

Definition rendered (combo : list (string * string)) (sc : list string)
  : list string :=
  map (substitute (matrix_context combo)) sc.

(** The triggers section 6 of the spec lists for the workflows. *)
Definition claimed_triggers {S : Type} (w : workflow S) : Prop :=
  triggered_by w (PullRequestEvent "opened") = true
  /\ triggered_by w (PullRequestEvent "synchronize") = true
  /\ triggered_by w (PushEvent "main") = true.

End Actions.

(** ** The release-notes workflow *)

Module ReleaseNotes.
Import Sh Actions.

(** What the steps read of the [pull_request] event. *)
Record pr_event := PrEvent {
  head_ref : string;
  head_repo_full_name : string;
  number : nat
}.

(** The three conditions of both steps,
    [[[ $(expr match WORD PATTERN) -gt 0 ]]], on the word the shell hands
    to [expr]. *)
Definition is_release_pr (word : string) : bool :=
  test_gt (expr_match word "release_v[0-9.]\+") 0.

Definition is_latest_dep_update_pr (word : string) : bool :=
  test_gt (expr_match word "latest-dep-update-[a-zA-Z0-9]*") 0.

Definition is_min_dep_update_pr (word : string) : bool :=
  test_gt (expr_match word "min-dep-update-[a-zA-Z0-9]*") 0.

(** The commands of the two scripts, once the shell has read the pasted
    head ref as [word] and the pasted number as the numeral of [n]. *)
Definition debug_pr_type_on (word : string) (n : nat) : sh unit :=
  (if is_release_pr word then run (echo "This is a release PR")
   else if is_latest_dep_update_pr word then
     run (echo "This is a latest dependency update PR")
   else if is_min_dep_update_pr word then
     run (echo "This is a minimum dependency update PR")
   else run (echo "This is a regular PR"));;
  run (echo ("PR #: " +:+ decimal n)).

(** Between double quotes the shell reads a backslash and a backtick as a
    backtick, and leaves the backslash of [\+] in place. *)
Definition release_notes_added_on (word : string) (n : nat) : sh unit :=
  (if is_release_pr word then exit 0
   else if is_latest_dep_update_pr word then exit 0
   else if is_min_dep_update_pr word then exit 0
   else mret tt);;
  run (pipe (cat "docs/source/release_notes.rst")
            (grep (":pr:`" +:+ decimal n +:+ "`"))).

(** A step that pastes the head ref: the shell runs the commands on the
    word it reads; it refuses a script whose quotes the ref has left
    unbalanced, with a syntax error, status 2, before any command; a ref
    that is not followed gives no run in this embedding. *)
Definition pasting (commands : string -> nat -> sh unit) (ev : pr_event)
  : option (sh unit) :=
  match read_pasted (head_ref ev) with
  | Reads word => Some (commands word (number ev))
  | Unbalanced => Some (exit 2)
  | Unread => None
  end.

Definition debug_pr_type : pr_event -> option (sh unit) :=
  pasting debug_pr_type_on.

Definition release_notes_added : pr_event -> option (sh unit) :=
  pasting release_notes_added_on.

(** The text of the two scripts, as the workflow file has it. *)
Definition condition_line (keyword pattern : string) : string :=
  keyword +:+ " [[ $(expr match "
  +:+ quoted "${{ github.event.pull_request.head.ref }}" +:+ " "
  +:+ quoted pattern +:+ ") -gt 0 ]]; then".

Definition debug_pr_type_text : list string :=
  [condition_line "if" "release_v[0-9.]\+";
   "  echo This is a release PR;";
   condition_line "elif" "latest-dep-update-[a-zA-Z0-9]*";
   "  echo This is a latest dependency update PR;";
   condition_line "elif" "min-dep-update-[a-zA-Z0-9]*";
   "  echo This is a minimum dependency update PR;";
   "else";
   "  echo This is a regular PR;";
   "fi";
   "  echo " +:+ quoted "PR #: ${{ github.event.number }}"].

Definition release_notes_added_text : list string :=
  [condition_line "if" "release_v[0-9.]\+";
   "  exit 0;";
   condition_line "elif" "latest-dep-update-[a-zA-Z0-9]*";
   "  exit 0;";
   condition_line "elif" "min-dep-update-[a-zA-Z0-9]*";
   "  exit 0;";
   "fi";
   "cat docs/source/release_notes.rst | grep "
   +:+ quoted ":pr:\`${{ github.event.number }}\`"].

(** A script of the workflow: its text, and the function it is embedded
    as. *)
Record script := Script {
  text : list string;
  meaning : pr_event -> option (sh unit)
}.

Definition release_notes_updated : workflow script :=
  Workflow "Release notes updated"
    [PullRequest ["opened"; "synchronize"]]
    [Job "release_notes_updated" "Release Notes Updated" "ubuntu-latest" None
       [Step "Checkout repository" (Some "actions/checkout@v2")
          [("ref", "${{ github.event.pull_request.head.ref }}");
           ("repository",
            "${{ github.event.pull_request.head.repo.full_name }}")]
          None;
        Step "Debug PR type" None []
          (Some (Script debug_pr_type_text debug_pr_type));
        Step "Release notes added" None []
          (Some (Script release_notes_added_text release_notes_added))]].

(** The scripted steps of a job in order: the first one that fails ends the
    job with its status. *)
Fixpoint run_scripts (scripts : list script) (ev : pr_event)
  (w : world) : option (nat * world) :=
  match scripts with
  | [] => Some (0, w)
  | s :: rest =>
      match meaning s ev with
      | Some commands =>
          let r := commands w in
          if Nat.eqb (status r) 0 then run_scripts rest ev (final r)
          else Some (status r, final r)
      | None => None
      end
  end.

Definition scripts_of {S : Type} (j : job S) : list S :=
  flat_map (fun s => match Actions.script s with Some c => [c] | None => [] end)
           (steps j).

Definition job_status (ev : pr_event) (w : world) : option nat :=
  option_map fst
    (run_scripts (flat_map scripts_of (jobs release_notes_updated)) ev w).

(** The value of an expression of the workflow in the event. *)
Definition github_context (ev : pr_event) (e : string) : string :=
  if String.eqb e "github.event.pull_request.head.ref" then head_ref ev
  else if String.eqb e "github.event.pull_request.head.repo.full_name" then
    head_repo_full_name ev
  else if String.eqb e "github.event.number" then decimal (number ev)
  else "".

(** The text the shell is given: every expression replaced by its value,
    whatever characters the value holds. *)
Definition shell_text (sc : script) (ev : pr_event) : string :=
  unlines (map (substitute (github_context ev)) (text sc)).

(** *** Vocabulary of the statements about the gate *)

Definition release_notes_path : string := "docs/source/release_notes.rst".

(** The marker of pull request [n], the argument of [grep]. *)
Definition marker (n : nat) : string := ":pr:`" +:+ decimal n +:+ "`".

(** A word is exempt when one of the three conditions holds of it. *)
Definition exempt (word : string) : bool :=
  is_release_pr word || is_latest_dep_update_pr word
  || is_min_dep_update_pr word.

Definition contains (m s : string) : Prop :=
  exists pre post, s = pre +:+ m +:+ post.

Definition file_contains (w : world) (path m : string) : Prop :=
  exists content, files w !! path = Some content /\ contains m content.

Definition digit_or_dot : ascii -> bool := one_of "0123456789.".

(** The three classes of branch names, in words: [release_v] and one or
    more digits or dots; [latest-dep-update-] and alphanumerics;
    [min-dep-update-] and alphanumerics; anything may follow. *)
Definition release_branch (b : string) : Prop :=
  exists ds rest,
    b = "release_v" +:+ ds +:+ rest /\ ds <> "" /\ all_chars digit_or_dot ds.

Definition latest_dep_update_branch (b : string) : Prop :=
  exists an rest,
    b = "latest-dep-update-" +:+ an +:+ rest /\ all_chars alphanumeric an.

Definition min_dep_update_branch (b : string) : Prop :=
  exists an rest,
    b = "min-dep-update-" +:+ an +:+ rest /\ all_chars alphanumeric an.

(** The text [p] is matched, as a whole, by the pattern written [pat]. *)
Definition matched_by (pat p : string) : Prop :=
  exists re, Bre.parse pat = Some re
             /\ Bre.matches re (list_ascii_of_string p).

Definition backtick_free (s : string) : bool :=
  forallb (fun c => negb (Ascii.eqb c "`")) (list_ascii_of_string s).

(** The number of backticks of a text. *)
Abbreviation ticks l := (count_occ Ascii.ascii_dec l "`"%char).

End ReleaseNotes.

(** ** The unit-test workflow (linux, minimum dependencies) *)

Module UnitTests.
Import Actions.

Definition unit_tests : workflow (list string) :=
  Workflow "Unit tests, linux, min dependencies"
    [PullRequest ["opened"; "synchronize"]; Push ["main"]]
    [Job "unit_tests"
       "${{ matrix.python_version }} min dep ${{ matrix.command }}"
       "ubuntu-latest"
       (Some (Strategy false
                [("python_version", ["3.7"]);
                 ("command",
                  ["git-test-automl"; "git-test-modelunderstanding";
                   "git-test-other"; "git-test-dask"])]))
       [Step "Set up Python ${{ matrix.python_version }}"
          (Some "actions/setup-python@v2")
          [("python-version", "${{ matrix.python_version }}")] None;
        Step "Checkout repository" (Some "actions/checkout@v2")
          [("ref", "${{ github.event.pull_request.head.ref }}");
           ("repository",
            "${{ github.event.pull_request.head.repo.full_name }}");
           ("fetch-depth", "2")]
          None;
        Step "Update apt and install Graphviz" None []
          (Some ["sudo apt update && sudo apt install -y graphviz"]);
        Step "Create virtual environment, upgrade pip" None []
          (Some ["pip install virtualenv";
                 "virtualenv test_python -q";
                 "source test_python/bin/activate";
                 "python -m pip install --upgrade pip -q"]);
        Step
          "install evalml with test dependencies, core dependencies, & optional requirements"
          None []
          (Some ["source test_python/bin/activate";
                 "pip install -e . --no-dependencies";
                 "pip install -r evalml/tests/dependency_update_check/minimum_test_requirements.txt";
                 "pip install -r evalml/tests/dependency_update_check/minimum_core_requirements.txt";
                 "pip install -r evalml/tests/dependency_update_check/minimum_requirements.txt"]);
        Step "run tests" None []
          (Some ["source test_python/bin/activate";
                 "make ${{ matrix.command }}"])]].

(** The one job of the workflow. *)
Definition the_job : job (list string) :=
  match jobs unit_tests with
  | j :: _ => j
  | [] => Job "" "" "" None []
  end.

(** The script of the last step of an instance, expressions replaced. *)
Definition last_script (combo : list (string * string)) : list string :=
  match script (List.last (steps the_job) (Step "" None [] None)) with
  | Some sc => rendered combo sc
  | None => []
  end.

End UnitTests.

(** ** The demo notebook [text_input.ipynb] *)

Module Notebook.

#[local] Set Warnings "-register-all".

Inductive expr :=
| Name (x : string)
| Str (s : string)
| Num (text : string)
| Attr (e : expr) (a : string)
| Call (f : expr) (args : list expr)
| Kw (k : string) (v : expr)
| Index (e : expr) (i : expr)
| Slice (lo hi : option expr)
| ListOf (es : list expr)
| DictOf (entries : list expr)
| Entry (k v : expr)
| FString (parts : list expr).

Inductive stmt :=
| Import (module : list string) (asname : option string)
| FromImport (module : list string) (name : string)
| Assign (targets : list string) (value : expr)
| Expr (e : expr).

Definition binary_split : expr :=
  Call (Attr (Attr (Name "evalml") "preprocessing") "split_data")
       [Name "X"; Name "y"; Kw "problem_type" (Str "binary");
        Kw "test_size" (Num "0.2"); Kw "random_seed" (Num "0")].

Definition binary_search : expr :=
  Call (Name "AutoMLSearch")
       [Kw "X_train" (Name "X_train"); Kw "y_train" (Name "y_train");
        Kw "problem_type" (Str "binary"); Kw "max_batches" (Num "1");
        Kw "optimize_thresholds" (Name "True")].

Definition holdout_score (pipeline : string) : expr :=
  Call (Attr (Name pipeline) "score")
       [Name "X_holdout"; Name "y_holdout";
        Kw "objectives"
           (Call (Attr (Attr (Name "evalml") "objectives")
                       "get_core_objectives")
                 [Str "binary"])].

Definition print_accuracy : stmt :=
  Expr (Call (Name "print")
             [FString [Str "Accuracy Binary: ";
                       Index (Name "scores") (Str "Accuracy Binary")]]).

(** The code cells, in the order of the file. *)
Definition text_input : list (list stmt) :=
  [ [Import ["evalml"] None;
     FromImport ["evalml"] "AutoMLSearch"];
    [FromImport ["urllib"; "request"] "urlopen";
     Import ["pandas"] (Some "pd");
     Assign ["input_data"]
       (Call (Name "urlopen")
          [Str "https://featurelabs-static.s3.amazonaws.com/spam_text_messages_modified.csv"]);
     Assign ["data"]
       (Index (Call (Attr (Name "pd") "read_csv") [Name "input_data"])
              (Slice None (Some (Num "750"))));
     Assign ["X"]
       (Call (Attr (Name "data") "drop")
             [ListOf [Str "Category"]; Kw "axis" (Num "1")]);
     Assign ["y"] (Index (Name "data") (Str "Category"));
     Expr (Call (Name "display") [Call (Attr (Name "X") "head") []])];
    [Expr (Call (Attr (Name "y") "value_counts")
                [Kw "normalize" (Name "True")])];
    [Expr (Call (Attr (Attr (Name "X") "ww") "init")
                [Kw "logical_types"
                    (DictOf [Entry (Str "Message") (Str "NaturalLanguage")])])];
    [Assign ["X_train"; "X_holdout"; "y_train"; "y_holdout"] binary_split];
    [Expr (Attr (Name "X_train") "ww")];
    [Assign ["automl"] binary_search;
     Expr (Call (Attr (Name "automl") "search") [])];
    [Expr (Attr (Name "automl") "rankings")];
    [Assign ["best_pipeline"] (Attr (Name "automl") "best_pipeline")];
    [Expr (Call (Attr (Name "automl") "describe_pipeline")
                [Index (Index (Attr (Attr (Name "automl") "rankings") "iloc")
                              (Num "0"))
                       (Str "id")])];
    [Expr (Call (Attr (Name "best_pipeline") "graph") [])];
    [Assign ["scores"] (holdout_score "best_pipeline");
     print_accuracy];
    [FromImport ["evalml"; "utils"] "infer_feature_types";
     Assign ["X"]
       (Call (Name "infer_feature_types")
             [Name "X"; DictOf [Entry (Str "Message") (Str "Categorical")]]);
     Assign ["X_train"; "X_holdout"; "y_train"; "y_holdout"] binary_split];
    [Assign ["automl_no_text"] binary_search;
     Expr (Call (Attr (Name "automl_no_text") "search") [])];
    [Expr (Attr (Name "automl_no_text") "rankings")];
    [Assign ["best_pipeline_no_text"]
       (Attr (Name "automl_no_text") "best_pipeline")];
    [Expr (Call (Attr (Name "best_pipeline_no_text") "graph") [])];
    [Expr (Call (Attr (Name "automl_no_text") "describe_pipeline")
                [Index (Index (Attr (Attr (Name "automl_no_text") "rankings")
                                    "iloc")
                              (Num "0"))
                       (Str "id")])];
    [Assign ["scores"] (holdout_score "best_pipeline_no_text");
     print_accuracy] ].

(** *** Which library operations the cells invoke

    A name is followed to where it comes from: a path starts at a module,
    [a] selects a member and ["()"] is a call, so that
    [evalml; AutoMLSearch; (); search] is the [search] of an object built
    by [evalml.AutoMLSearch]. *)
Definition path : Type := list string.
Definition bindings : Type := list (string * option path).

Fixpoint lookup_name (env : bindings) (x : string) : option path :=
  match env with
  | [] => None
  | (y, p) :: rest => if String.eqb x y then p else lookup_name rest x
  end.

Definition is_object (p : path) : bool := existsb (String.eqb "()") p.

Fixpoint origin (env : bindings) (e : expr) : option path :=
  match e with
  | Name x => lookup_name env x
  | Attr e' a =>
      match origin env e' with Some p => Some (p ++ [a]) | None => None end
  | Call f _ =>
      match origin env f with Some p => Some (p ++ ["()"]) | None => None end
  | _ => None
  end.

(** The operations an expression invokes, in evaluation order: a member of
    a module that is called, and a method or property selected on a
    variable that holds an object. *)
Fixpoint invoked (env : bindings) (e : expr) : list path :=
  match e with
  | Name _ | Str _ | Num _ => []
  | Attr e' a =>
      match e' with
      | Name x =>
          match lookup_name env x with
          | Some p => if is_object p then [p ++ [a]] else []
          | None => []
          end
      | _ => invoked env e'
      end
  | Call f args =>
      match origin env f with
      | Some p => if is_object p then [] else [p]
      | None => []
      end
      ++ invoked env f ++ flat_map (invoked env) args
  | Kw _ v => invoked env v
  | Index e' i => invoked env e' ++ invoked env i
  | Slice lo hi =>
      match lo with Some l => invoked env l | None => [] end
      ++ match hi with Some h => invoked env h | None => [] end
  | ListOf es | DictOf es | FString es => flat_map (invoked env) es
  | Entry k v => invoked env k ++ invoked env v
  end.

(** A statement: what it invokes and what its targets are bound to
    afterwards. Targets of an unpacking are components of the value and are
    not followed. *)
Definition exec (env : bindings) (s : stmt) : bindings * list path :=
  match s with
  | Import m asname =>
      match asname with
      | Some a => ((a, Some m) :: env, [])
      | None => ((List.hd "" m, Some (firstn 1 m)) :: env, [])
      end
  | FromImport m n => ((n, Some (m ++ [n])) :: env, [])
  | Assign [x] v => ((x, origin env v) :: env, invoked env v)
  | Assign targets v => (map (fun x => (x, None)) targets ++ env, invoked env v)
  | Expr e => (env, invoked env e)
  end.

Fixpoint exec_all (env : bindings) (ss : list stmt) : list path :=
  match ss with
  | [] => []
  | s :: rest => snd (exec env s) ++ exec_all (fst (exec env s)) rest
  end.

Definition path_eqb (p q : path) : bool :=
  Nat.eqb (length p) (length q)
  && forallb (fun xy => String.eqb (fst xy) (snd xy)) (combine p q).

Fixpoint distinct (seen : list path) (ps : list path) : list path :=
  match ps with
  | [] => []
  | p :: rest =>
      if existsb (path_eqb p) seen then distinct seen rest
      else p :: distinct (p :: seen) rest
  end.

(** The operations of package [pkg] the notebook invokes, each once, in
    the order of first use. *)
Definition operations (pkg : string) (nb : list (list stmt)) : list path :=
  List.filter (fun p => String.eqb (List.hd "" p) pkg)
         (distinct [] (exec_all [] (concat nb))).

Definition operation_name (p : path) : string := List.last p "".

(** The library surface section 6 of the spec names for the notebook, by
    operation name: the data-split utility; the AutoML search constructor
    with [search], [rankings], [best_pipeline], [describe_pipeline] and
    [score]; the feature-type inference utility. *)
Definition spec_surface : list string :=
  ["split_data"; "AutoMLSearch"; "search"; "rankings"; "best_pipeline";
   "describe_pipeline"; "score"; "infer_feature_types"].

End Notebook.

(** ** Script texts with the unknown parts left open *)

(** The text of a step is known but for what the runner pastes in.  A text
    is kept as pieces, literal characters or a numbered hole, so that the
    lexer can be run over it once for every value of the holes. *)

Module Symbolic.
Import Sh Actions ReleaseNotes.

Inductive piece :=
| Lit (cs : list ascii)
| Hole (k : nat).

Definition flatten (holes : nat -> list ascii) (ps : list piece) : list ascii :=
  flat_map (fun p => match p with Lit cs => cs | Hole k => holes k end) ps.

Fixpoint subst_sym (sctx : string -> list piece) (inside : option (list ascii))
  (s : list ascii) : list piece :=
  match s with
  | [] => []
  | c :: r =>
      match inside with
      | None =>
          match r with
          | c2 :: c3 :: r' =>
              if Ascii.eqb c "$" && Ascii.eqb c2 "{" && Ascii.eqb c3 "{"
              then subst_sym sctx (Some []) r'
              else Lit [c] :: subst_sym sctx None r
          | _ => Lit [c] :: subst_sym sctx None r
          end
      | Some acc =>
          match r with
          | c2 :: r' =>
              if Ascii.eqb c "}" && Ascii.eqb c2 "}"
              then sctx (string_of_list_ascii (trim (rev acc)))
                   ++ subst_sym sctx None r'
              else subst_sym sctx (Some (c :: acc)) r
          | [] => []
          end
      end
  end.

Definition text_sym (sctx : string -> list piece) (ls : list string)
  : list piece :=
  flat_map (fun l => subst_sym sctx None (chars l) ++ [Lit [newline]]) ls.

Definition settled (st : lexer) : bool :=
  negb (escaped st || after_dollar st)
  && Bool.eqb (in_comment st) (word_start st).

Fixpoint lex_sym (ok : nat -> bool) (st : lexer) (ps : list piece)
  : option lexer :=
  match ps with
  | [] => Some st
  | Lit cs :: r => lex_sym ok (fold_left lex_char cs st) r
  | Hole k :: r => if ok k && settled st then lex_sym ok st r else None
  end.

End Symbolic.

(** ** The names the notebook reads and binds *)

Module NotebookNames.
Import Notebook.

Fixpoint names_read (e : expr) : list string :=
  match e with
  | Name x => [x]
  | Str _ | Num _ => []
  | Attr e' _ => names_read e'
  | Call f args => names_read f ++ flat_map names_read args
  | Kw _ v => names_read v
  | Index e' i => names_read e' ++ names_read i
  | Slice lo hi =>
      match lo with Some l => names_read l | None => [] end
      ++ match hi with Some h => names_read h | None => [] end
  | ListOf es | DictOf es | FString es => flat_map names_read es
  | Entry k v => names_read k ++ names_read v
  end.

Definition stmt_reads (s : stmt) : list string :=
  match s with
  | Assign _ v => names_read v
  | Expr e => names_read e
  | Import _ _ | FromImport _ _ => []
  end.

Definition stmt_binds (s : stmt) : list string :=
  match s with
  | Import m asname =>
      [match asname with Some a => a | None => List.hd "" m end]
  | FromImport _ n => [n]
  | Assign targets _ => targets
  | Expr _ => []
  end.

(** The names a run of the statements reads before anything has bound
    them; the right-hand side of an assignment is read before its targets
    are bound. *)
Fixpoint unbound (known : list string) (ss : list stmt) : list string :=
  match ss with
  | [] => []
  | s :: rest =>
      List.filter (fun x => negb (existsb (String.eqb x) known)) (stmt_reads s)
      ++ unbound (stmt_binds s ++ known) rest
  end.

(** What the interpreter provides: the constant [True], [print], and
    [display] of the notebook shell. *)
Definition builtins : list string := ["True"; "print"; "display"].

End NotebookNames.

(** * Properties *)

(** ** The matcher *)

Module BreFacts.
Import Bre.

Lemma tails_spec (t s : list ascii) :
  In t (tails s) <-> exists pre, s = pre ++ t.
Proof.
  induction s as [|c r IH]; simpl.
  - split.
    + intros [<-|[]]. now exists [].
    + intros [pre E]. symmetry in E. apply app_eq_nil in E. left. symmetry. tauto.
  - split.
    + intros [<-|H].
      * now exists [].
      * apply IH in H as [pre ->]. now exists (c :: pre).
    + intros [[|c' pre] E]; simpl in E.
      * left. congruence.
      * right. apply IH. exists pre. congruence.
Qed.

Lemma match_lens_lit_app (m post : list ascii) :
  match_lens (lit m) (m ++ post) = [length m].
Proof.
  unfold lit. induction m as [|c m IH]; simpl; [reflexivity|].
  now rewrite Ascii.eqb_refl, IH.
Qed.

Lemma match_lens_lit_inv (m s : list ascii) :
  match_lens (lit m) s <> [] -> exists post, s = m ++ post.
Proof.
  unfold lit. revert s. induction m as [|c m IH]; intros s; simpl.
  - intros _. now exists s.
  - destruct s as [|c' r]; [congruence|].
    destruct (Ascii.eqb c c') eqn:E; [|congruence].
    apply Ascii.eqb_eq in E. subst c'. intros H.
    destruct (IH r) as [post ->]; [|now exists post].
    intros E. apply H. now rewrite E.
Qed.

Lemma found_in_lit (m line : list ascii) :
  found_in (lit m) line = true <-> exists pre post, line = pre ++ m ++ post.
Proof.
  unfold found_in. rewrite existsb_exists. split.
  - intros (t & Ht & Hm). apply tails_spec in Ht as [pre ->].
    destruct (match_lens_lit_inv m t) as [post ->]; [|now exists pre, post].
    intros E. rewrite E in Hm. discriminate.
  - intros (pre & post & ->). exists (m ++ post). split.
    + apply tails_spec. now exists pre.
    + now rewrite match_lens_lit_app.
Qed.

Lemma special_false (c : ascii) :
  special c = false ->
  Ascii.eqb c "\" = false /\ Ascii.eqb c "[" = false /\ Ascii.eqb c "*" = false.
Proof.
  unfold special. simpl. intros H.
  repeat (apply orb_false_elim in H as [? H]). auto.
Qed.

Lemma parse_from_plain (s : list ascii) :
  Forall (fun c => special c = false) s ->
  forall acc r,
    parse_from Top acc (s ++ r) = parse_from Top (rev (lit s) ++ acc) r.
Proof.
  induction 1 as [|c s Hc _ IH]; intros acc r; [reflexivity|].
  simpl. destruct (special_false c Hc) as (-> & -> & ->). rewrite Hc.
  rewrite IH. now rewrite <- app_assoc.
Qed.

Lemma parse_plain (s : string) :
  Forall (fun c => special c = false) (list_ascii_of_string s) ->
  parse s = Some (lit (list_ascii_of_string s)).
Proof.
  intros H. unfold parse.
  rewrite <- (app_nil_r (list_ascii_of_string s)) at 1.
  rewrite (parse_from_plain _ H). simpl.
  now rewrite rev_app_distr, rev_involutive.
Qed.

Lemma span_le (p : ascii -> bool) (s : list ascii) (j : nat) :
  j <= span p s <->
  j <= length s /\ Forall (fun c => p c = true) (firstn j s).
Proof.
  revert j. induction s as [|c r IH]; intros j; simpl.
  - destruct j; simpl; split; try lia; intros; split; auto; lia.
  - destruct j as [|j]; simpl.
    + split; intros; [split; [lia|constructor]|lia].
    + destruct (p c) eqn:E.
      * rewrite <- Nat.succ_le_mono, IH, <- Nat.succ_le_mono.
        split; intros [? ?]; split; auto.
        now inversion H0.
      * split; [lia|]. intros [_ H]. inversion H. congruence.
Qed.

Lemma matches_nil_inv (p : list ascii) : matches [] p -> p = [].
Proof. now inversion 1. Qed.

Lemma matches_once_inv (a : atom) (re : bre) (p : list ascii) :
  matches ((a, Once) :: re) p ->
  exists c s, p = c :: s /\ atom_ok a c = true /\ matches re s.
Proof. inversion 1; subst; eauto. Qed.

Lemma matches_star_inv (a : atom) (re : bre) (p : list ascii) :
  matches ((a, Star) :: re) p ->
  exists q s,
    p = q ++ s /\ Forall (fun c => atom_ok a c = true) q /\ matches re s.
Proof. inversion 1; subst; eauto. Qed.

Lemma matches_plus_inv (a : atom) (re : bre) (p : list ascii) :
  matches ((a, Plus) :: re) p ->
  exists q s,
    p = q ++ s /\ q <> [] /\ Forall (fun c => atom_ok a c = true) q
    /\ matches re s.
Proof. inversion 1; subst; eauto 7. Qed.

(** Splitting [s] after [j] characters that all satisfy [p]. *)
Lemma span_take (p : ascii -> bool) (s : list ascii) (j : nat) :
  j <= span p s ->
  s = firstn j s ++ skipn j s /\ length (firstn j s) = j
  /\ Forall (fun c => p c = true) (firstn j s).
Proof.
  intros H. apply span_le in H as [Hlen Hall]. split; [|split]; auto.
  - symmetry. apply firstn_skipn.
  - apply firstn_length_le. lia.
Qed.

Lemma span_app (p : ascii -> bool) (q r : list ascii) :
  Forall (fun c => p c = true) q -> length q <= span p (q ++ r).
Proof.
  intros H. apply span_le. split.
  - rewrite length_app. lia.
  - rewrite firstn_app, Nat.sub_diag, firstn_all. simpl. now rewrite app_nil_r.
Qed.

Lemma skipn_length_app (q r : list ascii) : skipn (length q) (q ++ r) = r.
Proof. rewrite skipn_app, Nat.sub_diag, skipn_all. reflexivity. Qed.

(** The matcher finds exactly the prefixes the pattern denotes. *)
Lemma match_lens_spec (re : bre) :
  forall (s : list ascii) (k : nat),
    In k (match_lens re s) <->
    exists p r, s = p ++ r /\ length p = k /\ matches re p.
Proof.
  induction re as [|[a q] re IH]; intros s k.
  - simpl. split.
    + intros [<-|[]]. exists [], s. repeat split. constructor.
    + intros (p & r & _ & <- & Hm). apply matches_nil_inv in Hm as ->. now left.
  - destruct q; cbn [match_lens].
    + destruct s as [|c r].
      * split; [intros []|]. intros (p & r & E & _ & Hm).
        apply matches_once_inv in Hm as (c & t & -> & _). discriminate.
      * destruct (atom_ok a c) eqn:E.
        -- rewrite in_map_iff. split.
           ++ intros (k' & <- & Hk). apply IH in Hk as (p & r' & -> & <- & Hm).
              exists (c :: p), r'. repeat split. now constructor.
           ++ intros (p & r' & Es & <- & Hm).
              apply matches_once_inv in Hm as (c' & t & -> & _ & Hm).
              simpl in Es. injection Es as <- ->.
              exists (length t). split; [reflexivity|]. apply IH.
              now exists t, r'.
        -- split; [intros []|]. intros (p & r' & Es & _ & Hm).
           apply matches_once_inv in Hm as (c' & t & -> & Hok & _).
           simpl in Es. injection Es as <- ->. congruence.
    + rewrite in_flat_map. split.
      * intros (j & Hj & Hk). apply in_seq in Hj.
        apply in_map_iff in Hk as (k' & <- & Hk).
        apply IH in Hk as (p & r & Es & <- & Hm).
        destruct (span_take (atom_ok a) s j) as (E1 & E2 & Hall); [lia|].
        exists (firstn j s ++ p), r. split; [|split].
        -- rewrite <- app_assoc, <- Es. exact E1.
        -- rewrite length_app, E2. reflexivity.
        -- now constructor.
      * intros (p & r & -> & <- & Hm).
        apply matches_star_inv in Hm as (q & t & -> & Hall & Hm).
        exists (length q). split.
        -- apply in_seq. split; [lia|]. simpl. apply Nat.lt_succ_r.
           rewrite <- app_assoc. now apply span_app.
        -- apply in_map_iff. exists (length t). split.
           ++ now rewrite length_app.
           ++ apply IH. exists t, r. split; [|auto].
              now rewrite <- app_assoc, skipn_length_app.
    + rewrite in_flat_map. split.
      * intros (j & Hj & Hk). apply in_seq in Hj.
        apply in_map_iff in Hk as (k' & <- & Hk).
        apply IH in Hk as (p & r & Es & <- & Hm).
        destruct (span_take (atom_ok a) s j) as (E1 & E2 & Hall); [lia|].
        exists (firstn j s ++ p), r. split; [|split].
        -- rewrite <- app_assoc, <- Es. exact E1.
        -- rewrite length_app, E2. reflexivity.
        -- constructor; auto. intros E. rewrite E in E2. simpl in E2. lia.
      * intros (p & r & -> & <- & Hm).
        apply matches_plus_inv in Hm as (q & t & -> & Hq & Hall & Hm).
        exists (length q). split.
        -- apply in_seq.
           assert (length q <= span (atom_ok a) ((q ++ t) ++ r))
             by (rewrite <- app_assoc; now apply span_app).
           destruct q; [congruence|simpl in *; lia].
        -- apply in_map_iff. exists (length t). split.
           ++ now rewrite length_app.
           ++ apply IH. exists t, r. split; [|auto].
              now rewrite <- app_assoc, skipn_length_app.
Qed.

(** [expr] prints a positive number exactly when a non-empty prefix
    matches. *)
Lemma longest_pos (re : bre) (s : list ascii) :
  0 < longest re s <->
  exists p r, s = p ++ r /\ p <> [] /\ matches re p.
Proof.
  unfold longest. split.
  - intros H.
    assert (Hin : exists k, In k (match_lens re s) /\ 0 < k).
    { induction (match_lens re s) as [|k l IH]; simpl in H; [lia|].
      destruct k as [|k].
      - destruct IH as (k' & ? & ?); [exact H|]. exists k'. split; [now right|auto].
      - exists (S k). split; [now left|lia]. }
    destruct Hin as (k & Hin & Hk).
    apply match_lens_spec in Hin as (p & r & -> & <- & Hm).
    exists p, r. repeat split; auto. intros ->. simpl in Hk. lia.
  - intros (p & r & -> & Hp & Hm).
    assert (Hin : In (length p) (match_lens re (p ++ r)))
      by (apply match_lens_spec; now exists p, r).
    assert (0 < length p) by (destruct p; simpl; [congruence|lia]).
    induction (match_lens re (p ++ r)) as [|k l IH]; [destruct Hin|].
    simpl. destruct Hin as [->|Hin]; [lia|]. specialize (IH Hin). lia.
Qed.

End BreFacts.

(** ** Strings, lines and [grep] *)

Module ShFacts.
Import Bre BreFacts Sh.

Lemma chars_app (a b : string) : chars (a +:+ b) = chars a ++ chars b.
Proof. induction a as [|c a IH]; simpl; [reflexivity|now rewrite IH]. Qed.

Lemma string_of_app (a b : list ascii) :
  string_of_list_ascii (a ++ b)
  = string_of_list_ascii a +:+ string_of_list_ascii b.
Proof. induction a as [|c a IH]; simpl; [reflexivity|now rewrite IH]. Qed.

Lemma chars_inj (a b : string) : chars a = chars b -> a = b.
Proof.
  intros E. rewrite <- (string_of_list_ascii_of_string a),
    <- (string_of_list_ascii_of_string b). now rewrite E.
Qed.

(** Splitting a string where its characters split. *)
Lemma chars_split (s : string) (p r : list ascii) :
  chars s = p ++ r ->
  s = string_of_list_ascii p +:+ string_of_list_ascii r.
Proof.
  intros E. apply chars_inj.
  now rewrite chars_app, !list_ascii_of_string_of_list_ascii.
Qed.

Lemma lines_from_sound (s : list ascii) :
  forall cur line,
    In line (lines_from cur s) ->
    exists pre post, rev cur ++ s = pre ++ line ++ post.
Proof.
  induction s as [|c r IH]; intros cur line; simpl.
  - destruct cur as [|x cur]; [intros []|]. intros [<-|[]].
    exists [], []. simpl. now rewrite !app_nil_r.
  - destruct (Ascii.eqb c newline).
    + intros [<-|H].
      * exists [], (c :: r). reflexivity.
      * apply IH in H as (pre & post & E). simpl in E. rewrite E.
        exists (rev cur ++ c :: pre), post. now rewrite <- app_assoc.
    + intros H. apply IH in H as (pre & post & E). simpl in E.
      rewrite <- app_assoc in E. simpl in E. eauto.
Qed.

Lemma lines_from_skip (m : list ascii) :
  Forall (fun c => Ascii.eqb c newline = false) m ->
  forall cur post, lines_from cur (m ++ post) = lines_from (rev m ++ cur) post.
Proof.
  induction 1 as [|c m Hc _ IH]; intros cur post; [reflexivity|].
  simpl. rewrite Hc, IH. now rewrite <- app_assoc.
Qed.

Lemma lines_from_first (post : list ascii) :
  forall cur, cur <> [] ->
    exists a rest, lines_from cur post = (rev cur ++ a) :: rest.
Proof.
  induction post as [|c r IH]; intros cur Hcur; simpl.
  - destruct cur; [congruence|]. exists [], []. now rewrite app_nil_r.
  - destruct (Ascii.eqb c newline).
    + exists [], (lines_from [] r). now rewrite app_nil_r.
    + destruct (IH (c :: cur)) as (a & rest & E); [discriminate|].
      rewrite E. simpl. exists (c :: a), rest. now rewrite <- app_assoc.
Qed.

Lemma lines_from_complete (m : list ascii) :
  m <> [] -> Forall (fun c => Ascii.eqb c newline = false) m ->
  forall pre cur post,
    exists line, In line (lines_from cur (pre ++ m ++ post))
                 /\ exists a b, line = a ++ m ++ b.
Proof.
  intros Hm Hnl. induction pre as [|c pre IH]; intros cur post.
  - simpl. rewrite (lines_from_skip m Hnl).
    destruct (lines_from_first post (rev m ++ cur)) as (a & rest & E).
    { intros E. apply (f_equal (@length ascii)) in E.
      rewrite length_app, length_rev in E. destruct m; [congruence|].
      simpl in E. lia. }
    rewrite E. eexists. split; [now left|].
    exists (rev cur), a. now rewrite rev_app_distr, rev_involutive, <- app_assoc.
  - simpl. destruct (Ascii.eqb c newline).
    + destruct (IH [] post) as (line & Hin & H). exists line. split; [now right|auto].
    + apply IH.
Qed.

(** A text without newline occurs in a file exactly when it occurs in one
    of its lines. *)
Lemma line_with (m s : list ascii) :
  m <> [] -> Forall (fun c => Ascii.eqb c newline = false) m ->
  (existsb (found_in (lit m)) (lines_from [] s) = true
   <-> exists pre post, s = pre ++ m ++ post).
Proof.
  intros Hm Hnl. rewrite existsb_exists. split.
  - intros (line & Hin & Hf). apply found_in_lit in Hf as (a & b & ->).
    apply lines_from_sound in Hin as (pre & post & E). simpl in E.
    exists (pre ++ a), (b ++ post). rewrite E. now rewrite <- !app_assoc.
  - intros (pre & post & ->).
    destruct (lines_from_complete m Hm Hnl pre [] post) as (line & Hin & a & b & ->).
    eexists. split; [exact Hin|]. apply found_in_lit. eauto.
Qed.

Lemma is_nil_filter {A : Type} (f : A -> bool) (l : list A) :
  is_nil (List.filter f l) = negb (existsb f l).
Proof.
  induction l as [|x l IH]; simpl; [reflexivity|]. now destruct (f x).
Qed.

Lemma decimal_digits (n : nat) :
  Forall (fun c => In c (chars "0123456789")) (chars (decimal n)).
Proof.
  unfold decimal. induction (Nat.to_uint n); simpl; constructor; simpl; auto 12.
Qed.

Lemma decimal_inj (n m : nat) : decimal n = decimal m -> n = m.
Proof.
  unfold decimal. intros E. apply DecimalNat.Unsigned.to_uint_inj.
  assert (H : Some (Nat.to_uint n) = Some (Nat.to_uint m))
    by (rewrite <- !NilEmpty.usu; now rewrite E).
  now injection H.
Qed.

End ShFacts.

(** ** The release-notes gate *)

Module ReleaseNotesFacts.
Import Bre BreFacts Sh ShFacts Actions ReleaseNotes.

Lemma digit_plain (c : ascii) :
  In c (chars "0123456789") ->
  special c = false /\ Ascii.eqb c newline = false
  /\ Ascii.eqb c "`" = false.
Proof.
  simpl. intros H.
  repeat (destruct H as [<-|H]; [repeat split; reflexivity|]). destruct H.
Qed.

Lemma marker_chars (n : nat) :
  chars (marker n) = chars ":pr:`" ++ chars (decimal n) ++ chars "`".
Proof. unfold marker. now rewrite !chars_app. Qed.

Lemma marker_parse (n : nat) :
  parse (marker n) = Some (lit (chars (marker n))).
Proof.
  apply parse_plain. rewrite marker_chars.
  apply Forall_app. split; [repeat constructor|].
  apply Forall_app. split; [|repeat constructor].
  eapply List.Forall_impl; [|apply decimal_digits].
  intros c Hc. now apply digit_plain.
Qed.

Lemma marker_one_line (n : nat) :
  Forall (fun c => Ascii.eqb c newline = false) (chars (marker n)).
Proof.
  rewrite marker_chars.
  apply Forall_app. split; [repeat constructor|].
  apply Forall_app. split; [|repeat constructor].
  eapply List.Forall_impl; [|apply decimal_digits].
  intros c Hc. now apply digit_plain.
Qed.

Lemma marker_not_empty (n : nat) : chars (marker n) <> [].
Proof. rewrite marker_chars. discriminate. Qed.

Lemma contains_chars (m s : string) :
  contains m s <-> exists pre post, chars s = pre ++ chars m ++ post.
Proof.
  split.
  - intros (pre & post & ->). exists (chars pre), (chars post).
    now rewrite !chars_app.
  - intros (pre & post & E).
    exists (string_of_list_ascii pre), (string_of_list_ascii post).
    apply chars_inj. now rewrite !chars_app, !list_ascii_of_string_of_list_ascii.
Qed.

Lemma not_exempt_runs (word : string) (n : nat) (w : world) :
  exempt word = false ->
  release_notes_added_on word n w
  = run (pipe (cat release_notes_path) (grep (marker n))) w.
Proof.
  unfold exempt. intros H.
  apply orb_false_elim in H as [H H3]. apply orb_false_elim in H as [H1 H2].
  unfold release_notes_added_on. now rewrite H1, H2, H3.
Qed.

(** The text [grep] reads is the file, or nothing when [cat] finds none;
    its status is that of the step. *)
Lemma check_runs (n : nat) (w : world) :
  run (pipe (cat release_notes_path) (grep (marker n))) w
  = (if existsb (found_in (lit (chars (marker n))))
                (lines (default "" (files w !! release_notes_path)))
     then Done tt else Exited 1)
      (World (files w) (echoed w) (opened w ++ [release_notes_path])).
Proof.
  unfold run, pipe, cat, grep, mbind, sh_bind, mret, sh_ret.
  rewrite marker_parse. generalize (lit (chars (marker n))). intros re.
  destruct (files w !! release_notes_path) as [content|];
    cbv beta iota zeta delta [fst from_option id];
    match goal with |- context [existsb ?f ?l] => destruct (existsb f l) end;
    reflexivity.
Qed.

Lemma not_exempt_status (word : string) (n : nat) (w : world) :
  exempt word = false ->
  status (release_notes_added_on word n w)
  = if existsb (found_in (lit (chars (marker n))))
               (lines (default "" (files w !! release_notes_path)))
    then 0 else 1.
Proof.
  intros H. rewrite (not_exempt_runs word n w H).
  rewrite check_runs. now destruct (existsb _ _).
Qed.

Lemma not_exempt_opens (word : string) (n : nat) (w : world) :
  exempt word = false ->
  opened (final (release_notes_added_on word n w))
  = opened w ++ [release_notes_path].
Proof.
  intros H. rewrite (not_exempt_runs word n w H).
  rewrite check_runs. now destruct (existsb _ _).
Qed.

Lemma exempt_exits (word : string) (n : nat) (w : world) :
  exempt word = true -> release_notes_added_on word n w = Exited 0 w.
Proof.
  unfold exempt, release_notes_added_on. intros H.
  destruct (is_release_pr word); [reflexivity|].
  destruct (is_latest_dep_update_pr word); [reflexivity|].
  destruct (is_min_dep_update_pr word); [reflexivity|discriminate].
Qed.

Lemma not_exempt_passes (word : string) (n : nat) (w : world) :
  exempt word = false ->
  (status (release_notes_added_on word n w) = 0
   <-> file_contains w release_notes_path (marker n)).
Proof.
  intros H. rewrite (not_exempt_status word n w H).
  pose proof (line_with (chars (marker n))
                (chars (default "" (files w !! release_notes_path)))
                (marker_not_empty _) (marker_one_line _)) as L.
  fold (lines (default "" (files w !! release_notes_path))) in L.
  unfold file_contains. split.
  - intros E.
    destruct (existsb _ (lines _)) eqn:Ex; [|discriminate].
    destruct (proj1 L eq_refl) as (pre & post & Hc).
    destruct (files w !! release_notes_path) as [content|] eqn:F.
    + exists content. split; [reflexivity|]. apply contains_chars.
      now exists pre, post.
    + exfalso. apply (f_equal (@length ascii)) in Hc.
      rewrite !length_app in Hc.
      pose proof (marker_not_empty n) as Hm.
      destruct (chars (marker n)); [congruence|].
      simpl in Hc. lia.
  - intros (content & F & Hc). rewrite F in *.
    change (default "" (Some content)) with content in *.
    apply contains_chars in Hc. apply L in Hc. now rewrite Hc.
Qed.

Lemma not_exempt_status_01 (word : string) (n : nat) (w : world) :
  exempt word = false ->
  status (release_notes_added_on word n w) = 0
  \/ status (release_notes_added_on word n w) = 1.
Proof.
  intros H. rewrite (not_exempt_status word n w H).
  destruct (existsb _ _); auto.
Qed.

(** *** The three conditions *)

Lemma matches_lit_app (m : list ascii) (re : bre) (p : list ascii) :
  matches (lit m ++ re) p <-> exists q, p = m ++ q /\ matches re q.
Proof.
  unfold lit. revert p. induction m as [|c m IH]; intros p; simpl.
  - split; [intros H; now exists p|intros (q & -> & H); exact H].
  - split.
    + intros H. apply matches_once_inv in H as (c' & s & -> & Hc & H).
      apply Ascii.eqb_eq in Hc as <-. apply IH in H as (q & -> & H).
      now exists q.
    + intros (q & -> & H). simpl. constructor; [apply Ascii.eqb_refl|].
      apply IH. now exists q.
Qed.

Lemma matches_plus_only (a : atom) (p : list ascii) :
  matches [(a, Plus)] p
  <-> p <> [] /\ Forall (fun c => atom_ok a c = true) p.
Proof.
  split.
  - intros H. apply matches_plus_inv in H as (q & s & -> & Hq & Hall & Hs).
    apply matches_nil_inv in Hs as ->. rewrite app_nil_r. auto.
  - intros [Hp Hall]. rewrite <- (app_nil_r p). constructor; auto. constructor.
Qed.

Lemma matches_star_only (a : atom) (p : list ascii) :
  matches [(a, Star)] p <-> Forall (fun c => atom_ok a c = true) p.
Proof.
  split.
  - intros H. apply matches_star_inv in H as (q & s & -> & Hall & Hs).
    apply matches_nil_inv in Hs as ->. now rewrite app_nil_r.
  - intros Hall. rewrite <- (app_nil_r p). constructor; auto. constructor.
Qed.

(** A condition holds when [expr] reads the ref as a string and a
    non-empty prefix of it matches. *)
Lemma condition_spec (b pat : string) (re : bre) :
  parse pat = Some re ->
  (test_gt (expr_match b pat) 0 = true <->
   existsb (String.eqb b) expr_keywords = false
   /\ exists p r, chars b = p ++ r /\ p <> [] /\ matches re p).
Proof.
  intros Hp. unfold test_gt, expr_match. rewrite Hp.
  destruct (existsb (String.eqb b) expr_keywords); cbn [arith_value].
  - split; [discriminate|intros [? _]; discriminate].
  - rewrite Nat.ltb_lt, longest_pos. tauto.
Qed.

Lemma bracket_digit_or_dot (c : ascii) :
  atom_ok (Bracket [("0", "9"); (".", ".")]%char) c = digit_or_dot c.
Proof. destruct c as [[] [] [] [] [] [] [] []]; reflexivity. Qed.

Lemma bracket_alphanumeric (c : ascii) :
  atom_ok (Bracket [("a", "z"); ("A", "Z"); ("0", "9")]%char) c
  = alphanumeric c.
Proof. destruct c as [[] [] [] [] [] [] [] []]; reflexivity. Qed.

Lemma release_pattern :
  parse "release_v[0-9.]\+"
  = Some (lit (chars "release_v")
          ++ [(Bracket [("0", "9"); (".", ".")]%char, Plus)]).
Proof. reflexivity. Qed.

Lemma latest_pattern :
  parse "latest-dep-update-[a-zA-Z0-9]*"
  = Some (lit (chars "latest-dep-update-")
          ++ [(Bracket [("a", "z"); ("A", "Z"); ("0", "9")]%char, Star)]).
Proof. reflexivity. Qed.

Lemma min_pattern :
  parse "min-dep-update-[a-zA-Z0-9]*"
  = Some (lit (chars "min-dep-update-")
          ++ [(Bracket [("a", "z"); ("A", "Z"); ("0", "9")]%char, Star)]).
Proof. reflexivity. Qed.

Lemma chars_nil (s : string) : chars s = [] <-> s = "".
Proof. destruct s; simpl; split; congruence. Qed.

(** A literal prefix followed by a run of one class, on strings. *)
Lemma prefix_then_run (b pre : string) (a : atom) (q : quant)
  (cls : ascii -> bool) :
  (forall c, atom_ok a c = cls c) -> q <> Once -> pre <> "" ->
  ((exists p r, chars b = p ++ r /\ p <> []
                /\ matches (lit (chars pre) ++ [(a, q)]) p)
   <-> exists run rest,
         b = pre +:+ run +:+ rest /\ (q = Plus -> run <> "")
         /\ all_chars cls run).
Proof.
  intros Hcls Hq Hpre. unfold all_chars. split.
  - intros (p & r & E & _ & Hm). apply matches_lit_app in Hm as (s & -> & Hm).
    assert (Hs : (q = Plus -> s <> [])
                 /\ Forall (fun c => atom_ok a c = true) s).
    { destruct q; [congruence| |].
      - apply matches_star_only in Hm. split; [discriminate|exact Hm].
      - apply matches_plus_only in Hm as [? ?]. auto. }
    destruct Hs as [Hne Hall].
    exists (string_of_list_ascii s), (string_of_list_ascii r).
    split; [|split].
    + apply chars_inj.
      rewrite !chars_app, !list_ascii_of_string_of_list_ascii, E.
      now rewrite <- app_assoc.
    + intros Eq Es. apply (Hne Eq). apply (f_equal chars) in Es.
      now rewrite list_ascii_of_string_of_list_ascii in Es.
    + rewrite list_ascii_of_string_of_list_ascii.
      eapply List.Forall_impl; [|exact Hall]. intros c. now rewrite <- Hcls.
  - intros (run & rest & -> & Hne & Hall).
    exists (chars pre ++ chars run), (chars rest). split; [|split].
    + rewrite !chars_app. now rewrite app_assoc.
    + intros E. apply app_eq_nil in E as [E _]. now apply chars_nil in E.
    + apply matches_lit_app. exists (chars run). split; [reflexivity|].
      assert (Hall' : Forall (fun c => atom_ok a c = true) (chars run)).
      { eapply List.Forall_impl; [|exact Hall]. intros c. now rewrite Hcls. }
      destruct q; [congruence| |].
      * now apply matches_star_only.
      * apply matches_plus_only. split; [|exact Hall'].
        intros E. apply chars_nil in E. now apply Hne.
Qed.

Lemma is_release_pr_spec (word : string) :
  is_release_pr word = true <-> release_branch word.
Proof.
  unfold is_release_pr, release_branch.
  rewrite (condition_spec _ _ _ release_pattern).
  rewrite (prefix_then_run _ "release_v" _ Plus digit_or_dot
             bracket_digit_or_dot); [|discriminate|discriminate].
  split.
  - intros (_ & ds & rest & E & Hne & Hall). exists ds, rest. auto.
  - intros (ds & rest & E & Hne & Hall). split.
    + rewrite E. reflexivity.
    + exists ds, rest. auto.
Qed.

Lemma is_latest_dep_update_pr_spec (word : string) :
  is_latest_dep_update_pr word = true
  <-> latest_dep_update_branch word.
Proof.
  unfold is_latest_dep_update_pr, latest_dep_update_branch.
  rewrite (condition_spec _ _ _ latest_pattern).
  rewrite (prefix_then_run _ "latest-dep-update-" _ Star alphanumeric
             bracket_alphanumeric); [|discriminate|discriminate].
  split.
  - intros (_ & an & rest & E & _ & Hall). exists an, rest. auto.
  - intros (an & rest & E & Hall). split.
    + rewrite E. reflexivity.
    + exists an, rest. repeat split; auto; discriminate.
Qed.

Lemma is_min_dep_update_pr_spec (word : string) :
  is_min_dep_update_pr word = true <-> min_dep_update_branch word.
Proof.
  unfold is_min_dep_update_pr, min_dep_update_branch.
  rewrite (condition_spec _ _ _ min_pattern).
  rewrite (prefix_then_run _ "min-dep-update-" _ Star alphanumeric
             bracket_alphanumeric); [|discriminate|discriminate].
  split.
  - intros (_ & an & rest & E & _ & Hall). exists an, rest. auto.
  - intros (an & rest & E & Hall). split.
    + rewrite E. reflexivity.
    + exists an, rest. repeat split; auto; discriminate.
Qed.

Lemma exempt_spec (word : string) :
  exempt word = true
  <-> release_branch word
      \/ latest_dep_update_branch word
      \/ min_dep_update_branch word.
Proof.
  unfold exempt.
  rewrite !orb_true_iff, is_release_pr_spec, is_latest_dep_update_pr_spec,
    is_min_dep_update_pr_spec. tauto.
Qed.

(** Anchoring: the conditions in terms of what the patterns match. *)
Lemma prefix_matched (b pat : string) (re : bre) :
  parse pat = Some re ->
  ((exists p r, chars b = p ++ r /\ p <> [] /\ matches re p)
   <-> exists p rest, b = p +:+ rest /\ p <> "" /\ matched_by pat p).
Proof.
  intros Hp. unfold matched_by. split.
  - intros (p & r & E & Hne & Hm).
    exists (string_of_list_ascii p), (string_of_list_ascii r).
    split; [|split].
    + now apply chars_split.
    + intros Es. apply Hne. apply (f_equal chars) in Es.
      now rewrite list_ascii_of_string_of_list_ascii in Es.
    + exists re. split; [exact Hp|].
      now rewrite list_ascii_of_string_of_list_ascii.
  - intros (p & rest & -> & Hne & re' & Hp' & Hm).
    rewrite Hp in Hp'. injection Hp' as <-.
    exists (chars p), (chars rest). split; [|split]; auto.
    + apply chars_app.
    + intros E. now apply chars_nil in E.
Qed.

Lemma is_release_pr_anchored (word : string) :
  is_release_pr word = true
  <-> exists p rest, word = p +:+ rest /\ p <> ""
                     /\ matched_by "release_v[0-9.]\+" p.
Proof.
  rewrite <- (prefix_matched _ _ _ release_pattern). split.
  - intros H. now apply (condition_spec _ _ _ release_pattern) in H.
  - intros H. apply (condition_spec _ _ _ release_pattern). split; [|exact H].
    apply (prefix_then_run _ "release_v" _ Plus digit_or_dot
             bracket_digit_or_dot) in H as (ds & rest & -> & _);
      [reflexivity|discriminate|discriminate].
Qed.

Lemma is_latest_dep_update_pr_anchored (word : string) :
  is_latest_dep_update_pr word = true
  <-> exists p rest, word = p +:+ rest /\ p <> ""
                     /\ matched_by "latest-dep-update-[a-zA-Z0-9]*" p.
Proof.
  rewrite <- (prefix_matched _ _ _ latest_pattern). split.
  - intros H. now apply (condition_spec _ _ _ latest_pattern) in H.
  - intros H. apply (condition_spec _ _ _ latest_pattern). split; [|exact H].
    apply (prefix_then_run _ "latest-dep-update-" _ Star alphanumeric
             bracket_alphanumeric) in H as (ds & rest & -> & _);
      [reflexivity|discriminate|discriminate].
Qed.

Lemma is_min_dep_update_pr_anchored (word : string) :
  is_min_dep_update_pr word = true
  <-> exists p rest, word = p +:+ rest /\ p <> ""
                     /\ matched_by "min-dep-update-[a-zA-Z0-9]*" p.
Proof.
  rewrite <- (prefix_matched _ _ _ min_pattern). split.
  - intros H. now apply (condition_spec _ _ _ min_pattern) in H.
  - intros H. apply (condition_spec _ _ _ min_pattern). split; [|exact H].
    apply (prefix_then_run _ "min-dep-update-" _ Star alphanumeric
             bracket_alphanumeric) in H as (ds & rest & -> & _);
      [reflexivity|discriminate|discriminate].
Qed.

(** *** Markers of other pull requests *)

Lemma unique_split (c : ascii) (x y x' y' : list ascii) :
  ~ In c x -> ~ In c x' -> x ++ c :: y = x' ++ c :: y' -> x = x' /\ y = y'.
Proof.
  revert x'. induction x as [|a x IH]; intros [|a' x'] Hx Hx' E; simpl in *.
  - injection E; auto.
  - injection E as <- _. exfalso. apply Hx'. now left.
  - injection E as -> _. exfalso. apply Hx. now left.
  - injection E as <- E. destruct (IH x') as [-> ->]; auto.
Qed.

Lemma backtick_free_ticks (s : string) :
  backtick_free s = true -> ticks (chars s) = 0.
Proof.
  unfold backtick_free. intros H. apply count_occ_not_In. intros Hin.
  rewrite forallb_forall in H. apply H in Hin. discriminate.
Qed.

Lemma decimal_ticks (n : nat) : ticks (chars (decimal n)) = 0.
Proof.
  apply count_occ_not_In. intros Hin.
  pose proof (decimal_digits n) as H. rewrite List.Forall_forall in H.
  apply H, digit_plain in Hin as (_ & _ & Hin). discriminate.
Qed.

Lemma marker_occurrence (pre post a b d d' : list ascii) :
  ticks pre = 0 -> ticks post = 0 -> ticks d = 0 -> ticks d' = 0 ->
  pre ++ (chars ":pr:`" ++ d' ++ chars "`") ++ post
  = a ++ (chars ":pr:`" ++ d ++ chars "`") ++ b ->
  d = d'.
Proof.
  intros Hpre Hpost Hd Hd' E.
  assert (Hab : ticks a = 0 /\ ticks b = 0).
  { apply (f_equal (fun l => ticks l)) in E.
    rewrite !count_occ_app in E. simpl in E. lia. }
  destruct Hab as [Ha Hb].
  assert (E' : (pre ++ chars ":pr:") ++ "`"%char :: (d' ++ "`"%char :: post)
               = (a ++ chars ":pr:") ++ "`"%char :: (d ++ "`"%char :: b)).
  { rewrite <- !app_assoc. rewrite <- !app_assoc in E. exact E. }
  apply unique_split in E' as [_ E'].
  - apply unique_split in E' as [E' _]; [congruence| |];
      now apply count_occ_not_In with (eq_dec := Ascii.ascii_dec).
  - apply count_occ_not_In with (eq_dec := Ascii.ascii_dec).
    rewrite count_occ_app, Hpre. reflexivity.
  - apply count_occ_not_In with (eq_dec := Ascii.ascii_dec).
    rewrite count_occ_app, Ha. reflexivity.
Qed.

Lemma other_marker_absent (n n' : nat) (pre post : string) :
  n' <> n -> backtick_free pre = true -> backtick_free post = true ->
  ~ contains (marker n) (pre +:+ marker n' +:+ post).
Proof.
  intros Hn Hpre Hpost Hc. apply contains_chars in Hc as (a & b & E).
  rewrite !chars_app, !marker_chars in E.
  apply marker_occurrence in E.
  - apply Hn. symmetry. now apply decimal_inj, chars_inj.
  - now apply backtick_free_ticks.
  - now apply backtick_free_ticks.
  - apply decimal_ticks.
  - apply decimal_ticks.
Qed.

(** *** The debug step *)

Lemma debug_pr_type_done (word : string) (n : nat) (w : world) :
  status (debug_pr_type_on word n w) = 0
  /\ files (final (debug_pr_type_on word n w)) = files w
  /\ opened (final (debug_pr_type_on word n w)) = opened w.
Proof.
  unfold debug_pr_type_on.
  destruct (is_release_pr word);
    [|destruct (is_latest_dep_update_pr word);
      [|destruct (is_min_dep_update_pr word)]];
    repeat split; reflexivity.
Qed.

(** *** What the shell reads *)

Lemma expand_literal (cs : list ascii) :
  Forall (fun c => literal_in_quotes c = true) cs ->
  expand_quoted cs = Some cs.
Proof.
  induction 1 as [|c r Hc _ IH]; [reflexivity|].
  cbn [expand_quoted]. now rewrite Hc, IH.
Qed.

Lemma read_literal (value : string) :
  all_chars literal_in_quotes value -> read_pasted value = Reads value.
Proof.
  intros H. unfold read_pasted. rewrite (expand_literal _ H).
  now rewrite string_of_list_ascii_of_string.
Qed.

Lemma plain_literal (c : ascii) :
  plain_char c = true -> literal_in_quotes c = true.
Proof. destruct c as [[] [] [] [] [] [] [] []]; vm_compute; congruence. Qed.

Lemma read_plain (value : string) :
  all_chars plain_char value -> read_pasted value = Reads value.
Proof.
  intros H. apply read_literal. eapply List.Forall_impl; [|exact H].
  apply plain_literal.
Qed.

Lemma pasting_reads (commands : string -> nat -> sh unit) (ev : pr_event)
  (word : string) :
  read_pasted (head_ref ev) = Reads word ->
  pasting commands ev = Some (commands word (number ev)).
Proof. unfold pasting. now intros ->. Qed.

Lemma job_status_eq (ev : pr_event) (word : string) (w : world) :
  read_pasted (head_ref ev) = Reads word ->
  job_status ev w
  = Some (status (release_notes_added_on word (number ev)
                    (final (debug_pr_type_on word (number ev) w)))).
Proof.
  intros R.
  change (job_status ev w)
    with (option_map fst
            (run_scripts
               [Script debug_pr_type_text debug_pr_type;
                Script release_notes_added_text release_notes_added] ev w)).
  cbn [run_scripts meaning]. unfold debug_pr_type, release_notes_added.
  rewrite !(pasting_reads _ ev word R).
  destruct (debug_pr_type_done word (number ev) w) as (-> & _).
  cbn [Nat.eqb].
  set (st := status (release_notes_added_on word _ _)).
  destruct (Nat.eqb st 0) eqn:E; [|reflexivity].
  apply Nat.eqb_eq in E. cbn. now rewrite E.
Qed.

End ReleaseNotesFacts.

(** ** The release-notes workflow, step by step *)

Section ReleaseNotesClaims.
Import Bre BreFacts Sh ShFacts Actions ReleaseNotes ReleaseNotesFacts.

Lemma append_assoc (a b c : string) : (a +:+ b) +:+ c = a +:+ (b +:+ c).
Proof. apply chars_inj. now rewrite !chars_app, app_assoc. Qed.

Lemma all_chars_app (p : ascii -> bool) (a b : string) :
  all_chars p (a +:+ b) <-> all_chars p a /\ all_chars p b.
Proof. unfold all_chars. rewrite chars_app. apply Forall_app. Qed.

Lemma release_notes_added_reads (ev : pr_event) (word : string) :
  read_pasted (head_ref ev) = Reads word ->
  release_notes_added ev = Some (release_notes_added_on word (number ev)).
Proof. apply pasting_reads. Qed.

Lemma debug_pr_type_reads (ev : pr_event) (word : string) :
  read_pasted (head_ref ev) = Reads word ->
  debug_pr_type ev = Some (debug_pr_type_on word (number ev)).
Proof. apply pasting_reads. Qed.

(** The commands leave at once, the world untouched, exactly for an exempt
    word: otherwise the release notes are opened. *)
Lemma exits_iff_exempt (word : string) (n : nat) :
  (forall w, release_notes_added_on word n w = Exited 0 w)
  <-> exempt word = true.
Proof.
  split.
  - intros H. destruct (exempt word) eqn:E; [reflexivity|].
    pose proof (not_exempt_opens word n (World ∅ [] []) E) as O.
    rewrite H in O. discriminate O.
  - intros E w. now apply exempt_exits.
Qed.

(** The debug step leaves the files as they were, so the check that
    follows it sees the same release notes. *)
Lemma job_status_reads (ev : pr_event) (word : string) (w : world) :
  read_pasted (head_ref ev) = Reads word ->
  exists w', files w' = files w
             /\ job_status ev w
                = Some (status (release_notes_added_on word (number ev) w')).
Proof.
  intros R. exists (final (debug_pr_type_on word (number ev) w)). split.
  - now destruct (debug_pr_type_done word (number ev) w) as (_ & Hf & _).
  - now apply job_status_eq.
Qed.

Lemma file_contains_files (w w' : world) (path m : string) :
  files w' = files w -> file_contains w' path m <-> file_contains w path m.
Proof. unfold file_contains. now intros ->. Qed.

(** X16. The gate on a head ref that the shell reads as a word meeting none of
    the three conditions: the step "Release notes added" succeeds exactly
    when [docs/source/release_notes.rst] contains the marker of the
    pull-request number, and fails with status 1 otherwise; the scripts of
    the job end with the same status. *)
Theorem release_notes_gate (ev : pr_event) (word : string) (w : world) :
  read_pasted (head_ref ev) = Reads word ->
  exempt word = false ->
  exists commands,
    release_notes_added ev = Some commands
    /\ (status (commands w) <> 0
        <-> ~ file_contains w release_notes_path (marker (number ev)))
    /\ (file_contains w release_notes_path (marker (number ev)) ->
        status (commands w) = 0 /\ job_status ev w = Some 0)
    /\ (~ file_contains w release_notes_path (marker (number ev)) ->
        status (commands w) = 1 /\ job_status ev w = Some 1).
Proof.
  intros R H. eexists. split; [exact (release_notes_added_reads ev word R)|].
  pose proof (not_exempt_passes word (number ev) w H) as P.
  destruct (job_status_reads ev word w R) as (w' & Hf & ->).
  pose proof (not_exempt_passes word (number ev) w' H) as P'.
  rewrite (file_contains_files w w' _ _ Hf) in P'.
  destruct (not_exempt_status_01 word (number ev) w H) as [S|S];
    destruct (not_exempt_status_01 word (number ev) w' H) as [S'|S'];
    rewrite S, S' in *; repeat split; intros; try tauto; try congruence;
    try (exfalso; intuition congruence).
Qed.

Lemma release_notes_gate_witness :
  let ev := PrEvent "fix-typo" "alteryx/evalml" 15 in
  let w := World {[ "docs/source/release_notes.rst"
                      := "* Fixed a typo :pr:`15`" ]} [] [] in
  exists commands,
    release_notes_added ev = Some commands
    /\ (status (commands w) <> 0
        <-> ~ file_contains w release_notes_path (marker (number ev)))
    /\ (file_contains w release_notes_path (marker (number ev)) ->
        status (commands w) = 0 /\ job_status ev w = Some 0)
    /\ (~ file_contains w release_notes_path (marker (number ev)) ->
        status (commands w) = 1 /\ job_status ev w = Some 1).
Proof.
  intros ev w. apply (release_notes_gate ev "fix-typo" w); reflexivity.
Defined.

(** C1. The claim does not hold of every head branch. The workflow pastes
    the name between double quotes of the script. With the head branch a,
    double quote, b, which meets none of the three conditions, and release
    notes that hold the marker of the pull request, the text of "Release
    notes added" reaches its end with a quote open: the shell refuses the
    script with status 2, and the job fails although the marker is
    there. *)
Theorem quote_in_ref_fails_marked_request :
  let ev := PrEvent ("a" +:+ double_quote +:+ "b") "alteryx/evalml" 15 in
  let w := World {[ "docs/source/release_notes.rst"
                      := "* Fixed a typo :pr:`15`" ]} [] [] in
  exempt (head_ref ev) = false
  /\ file_contains w release_notes_path (marker (number ev))
  /\ unclosed
       (shell_text (Script release_notes_added_text release_notes_added) ev)
     = true
  /\ option_map (fun commands => commands w) (release_notes_added ev)
     = Some (Exited 2 w)
  /\ job_status ev w = Some 2.
Proof.
  intros ev w. split; [reflexivity|]. split.
  - exists "* Fixed a typo :pr:`15`". split; [reflexivity|].
    now exists "* Fixed a typo ", "".
  - repeat split; reflexivity.
Qed.

(** The second and third class hold as soon as the name begins with the
    fixed text: no alphanumeric need follow. *)
Lemma latest_dep_update_branch_prefix (b : string) :
  latest_dep_update_branch b
  <-> exists rest, b = "latest-dep-update-" +:+ rest.
Proof.
  split.
  - intros (an & rest & -> & _). now exists (an +:+ rest).
  - intros (rest & ->). exists "", rest. split; [reflexivity|constructor].
Qed.

Lemma min_dep_update_branch_prefix (b : string) :
  min_dep_update_branch b <-> exists rest, b = "min-dep-update-" +:+ rest.
Proof.
  split.
  - intros (an & rest & -> & _). now exists (an +:+ rest).
  - intros (rest & ->). exists "", rest. split; [reflexivity|constructor].
Qed.

(** X2. A head ref that begins with [latest-dep-update-] or with
    [min-dep-update-] and goes on with characters the shell reads
    literally, or with none, is exempt: the step leaves with status 0 and
    opens no file. *)
Theorem dep_update_prefix_is_exempt (ev : pr_event) (rest : string) :
  all_chars literal_in_quotes rest ->
  head_ref ev = "latest-dep-update-" +:+ rest
  \/ head_ref ev = "min-dep-update-" +:+ rest ->
  exists commands,
    release_notes_added ev = Some commands
    /\ forall w, commands w = Exited 0 w.
Proof.
  intros Hrest H. eexists. split.
  - apply release_notes_added_reads. apply read_literal.
    destruct H as [-> | ->]; apply all_chars_app; (split; [|exact Hrest]);
      unfold all_chars; simpl; repeat constructor.
  - apply exits_iff_exempt, exempt_spec. right.
    destruct H as [H|H]; [left|right].
    + apply latest_dep_update_branch_prefix. now exists rest.
    + apply min_dep_update_branch_prefix. now exists rest.
Qed.

Lemma dep_update_prefix_is_exempt_witness :
  exists commands,
    release_notes_added (PrEvent "latest-dep-update-" "alteryx/evalml" 7)
    = Some commands
    /\ forall w, commands w = Exited 0 w.
Proof.
  apply (dep_update_prefix_is_exempt _ ""); [constructor|left; reflexivity].
Defined.

(** X4. For a head ref that the shell reads as a word, the exempt ones are
    those of three classes of words: [release_v] and one or more digits or
    dots, [latest-dep-update-] and alphanumerics, [min-dep-update-] and
    alphanumerics. For a word of these classes the step ends with status 0
    and leaves the world as it was; for any other word it opens the release
    notes. *)
Theorem exempt_branches (ev : pr_event) (word : string) :
  read_pasted (head_ref ev) = Reads word ->
  exists commands,
    release_notes_added ev = Some commands
    /\ (release_branch word
        \/ latest_dep_update_branch word
        \/ min_dep_update_branch word ->
        forall w, commands w = Exited 0 w)
    /\ (~ (release_branch word
           \/ latest_dep_update_branch word
           \/ min_dep_update_branch word) ->
        forall w, opened (final (commands w))
                  = opened w ++ [release_notes_path]).
Proof.
  intros R. eexists. split; [exact (release_notes_added_reads ev word R)|].
  rewrite <- exempt_spec. split.
  - intros H. now apply exits_iff_exempt.
  - intros H w. apply not_exempt_opens. now destruct (exempt word).
Qed.

Lemma exempt_branches_witness :
  exists commands,
    release_notes_added (PrEvent "release_v0.30.2" "alteryx/evalml" 9)
    = Some commands
    /\ (release_branch "release_v0.30.2"
        \/ latest_dep_update_branch "release_v0.30.2"
        \/ min_dep_update_branch "release_v0.30.2" ->
        forall w, commands w = Exited 0 w)
    /\ (~ (release_branch "release_v0.30.2"
           \/ latest_dep_update_branch "release_v0.30.2"
           \/ min_dep_update_branch "release_v0.30.2") ->
        forall w, opened (final (commands w))
                  = opened w ++ [release_notes_path]).
Proof.
  apply (exempt_branches (PrEvent "release_v0.30.2" "alteryx/evalml" 9)).
  reflexivity.
Defined.

(** C2. The claim does not hold of every head branch of the three
    classes. The name [release_v1] followed by a double quote begins with
    [release_v] and a digit, but pasted between the double quotes of the
    script it leaves a quote open: the shell refuses the script with
    status 2 instead of leaving with status 0. *)
Theorem release_ref_with_quote_is_refused :
  let ev := PrEvent ("release_v1" +:+ double_quote) "alteryx/evalml" 15 in
  release_branch (head_ref ev)
  /\ unclosed
       (shell_text (Script release_notes_added_text release_notes_added) ev)
     = true
  /\ forall w, option_map (fun commands => commands w)
                          (release_notes_added ev)
               = Some (Exited 2 w).
Proof.
  intros ev. split; [|split; [reflexivity|intros w; reflexivity]].
  exists "1", double_quote. repeat split; [discriminate|].
  unfold all_chars. simpl. repeat constructor.
Qed.

(** The markers of 150 and of 115 do not stand for that of 15. *)
Lemma marker_15_not_150_115 (w : world) :
  files w !! release_notes_path
  = Some ("* Added :pr:`150`" +:+ String newline "* Fixed :pr:`115`") ->
  status (release_notes_added_on "fix-typo" 15 w) = 1.
Proof.
  intros F. rewrite not_exempt_status by reflexivity.
  unfold release_notes_path in *. rewrite F. reflexivity.
Qed.

(** C3. The claim does not hold of every head branch. The name
    [release_v$#] meets none of the three conditions as it stands, but
    pasted between double quotes the shell expands [$#] to 0 and hands
    [release_v0] to [expr]: the step leaves with status 0 although the
    release notes hold the marker of 150 only, not that of pull request
    15. *)
Theorem expanded_ref_passes_without_marker :
  let ev := PrEvent "release_v$#" "alteryx/evalml" 15 in
  let w := World {[ "docs/source/release_notes.rst"
                      := "* Fixed :pr:`150`" ]} [] [] in
  exempt (head_ref ev) = false
  /\ ~ file_contains w release_notes_path (marker (number ev))
  /\ read_pasted (head_ref ev) = Reads "release_v0"
  /\ option_map (fun commands => commands w) (release_notes_added ev)
     = Some (Exited 0 w).
Proof.
  intros ev w. split; [reflexivity|]. split; [|split; reflexivity].
  intros (content & F & Hc). injection F as <-.
  now apply (other_marker_absent 15 150 "* Fixed " "") in Hc.
Qed.

(** X7. With a head ref read as a word that is not exempt, release notes that
    hold one back-quoted entry pass the check exactly when the text between
    the back quotes is the decimal numeral of the pull request: the entry
    of 015 does not serve pull request 15. *)
Theorem marker_digits_exact (ev : pr_event) (word : string) (w : world)
  (pre ds post : string) :
  read_pasted (head_ref ev) = Reads word ->
  exempt word = false ->
  backtick_free pre = true -> backtick_free ds = true ->
  backtick_free post = true ->
  files w !! release_notes_path
  = Some (pre +:+ ":pr:`" +:+ ds +:+ "`" +:+ post) ->
  exists commands,
    release_notes_added ev = Some commands
    /\ (status (commands w) = 0 <-> ds = decimal (number ev)).
Proof.
  intros R H Hpre Hds Hpost F.
  eexists. split; [exact (release_notes_added_reads ev word R)|].
  rewrite (not_exempt_passes word (number ev) w H). split.
  - intros (content & F' & Hc). rewrite F in F'. injection F' as <-.
    apply contains_chars in Hc as (a & b & E).
    rewrite !chars_app, marker_chars in E.
    apply chars_inj. symmetry.
    apply (marker_occurrence (chars pre) (chars post) a b).
    + now apply backtick_free_ticks.
    + now apply backtick_free_ticks.
    + apply decimal_ticks.
    + now apply backtick_free_ticks.
    + rewrite <- E. now rewrite <- !app_assoc.
  - intros ->. eexists. split; [exact F|].
    exists pre, post. unfold marker. now rewrite !append_assoc.
Qed.

Lemma marker_digits_exact_witness :
  let ev := PrEvent "fix-typo" "alteryx/evalml" 15 in
  let w := World {[ "docs/source/release_notes.rst"
                      := "* Fixed a typo :pr:`015`" ]} [] [] in
  exists commands,
    release_notes_added ev = Some commands
    /\ (status (commands w) = 0 <-> "015" = decimal (number ev)).
Proof.
  intros ev w.
  apply (marker_digits_exact ev "fix-typo" w "* Fixed a typo " "015" "");
    reflexivity.
Defined.

(** X1. With a head ref read as a word the step "Debug PR type" ends with
    status 0; the scripts of the job fail only through the [grep] of
    "Release notes added": exactly when the word is not exempt and the
    marker is missing, and then with status 1. *)
Theorem only_grep_fails (ev : pr_event) (word : string) (w : world) :
  read_pasted (head_ref ev) = Reads word ->
  exists debug,
    debug_pr_type ev = Some debug
    /\ status (debug w) = 0
    /\ (job_status ev w <> Some 0
        <-> exempt word = false
            /\ ~ file_contains w release_notes_path (marker (number ev)))
    /\ (job_status ev w = Some 0 \/ job_status ev w = Some 1).
Proof.
  intros R. eexists. split; [exact (debug_pr_type_reads ev word R)|].
  destruct (debug_pr_type_done word (number ev) w) as (Hs & _).
  split; [exact Hs|].
  destruct (job_status_reads ev word w R) as (w' & Hf & ->).
  rewrite <- (file_contains_files w w' _ _ Hf).
  destruct (exempt word) eqn:E.
  - rewrite (exempt_exits word (number ev) w' E). simpl. split; [|now left].
    split; [congruence|]. intros [? _]. discriminate.
  - pose proof (not_exempt_passes word (number ev) w' E) as P.
    destruct (not_exempt_status_01 word (number ev) w' E) as [S|S];
      rewrite S in *; split; auto; split.
    + congruence.
    + intros [_ Hn]. exfalso. apply Hn, P. reflexivity.
    + intros _. split; [reflexivity|]. intros Hc. apply P in Hc. discriminate.
    + discriminate.
Qed.

Lemma only_grep_fails_witness :
  let ev := PrEvent "fix-typo" "alteryx/evalml" 15 in
  let w := World {[ "docs/source/release_notes.rst"
                      := "* Fixed :pr:`150`" ]} [] [] in
  exists debug,
    debug_pr_type ev = Some debug
    /\ status (debug w) = 0
    /\ (job_status ev w <> Some 0
        <-> exempt "fix-typo" = false
            /\ ~ file_contains w release_notes_path (marker (number ev)))
    /\ (job_status ev w = Some 0 \/ job_status ev w = Some 1).
Proof.
  intros ev w. apply (only_grep_fails ev "fix-typo" w). reflexivity.
Defined.

(** C7. The step "Debug PR type" does not end with status 0 for every
    head branch name. The workflow pastes the name into the text of the
    script, between double quotes. A name that holds a double quote itself,
    such as the three characters a, double quote, b, ends the quoted word
    early: at the end of the script three command substitutions and two
    quoted strings are still open, and the shell refuses the script with a
    syntax error before it runs any command. With the name [main] nothing
    is left open. *)
Theorem debug_step_text_breaks_on_quote :
  opened_by
    (lex (shell_text (Script debug_pr_type_text debug_pr_type)
            (PrEvent ("a" +:+ double_quote +:+ "b") "alteryx/evalml" 15)))
  = [CommandSubst; DoubleQuote; CommandSubst; DoubleQuote; CommandSubst]
  /\ unclosed
       (shell_text (Script debug_pr_type_text debug_pr_type)
          (PrEvent ("a" +:+ double_quote +:+ "b") "alteryx/evalml" 15))
     = true
  /\ unclosed
       (shell_text (Script debug_pr_type_text debug_pr_type)
          (PrEvent "main" "alteryx/evalml" 15))
     = false.
Proof. repeat split; reflexivity. Qed.

(** X14. Anchoring. For a head ref read as a word, the step leaves at once
    with status 0 exactly when one of the three patterns matches a
    non-empty prefix of the word; a word such as [fix-release_v1.0], which
    holds a text the first pattern matches but not at its start, has the
    release notes opened and the marker checked. *)
Theorem exemption_is_anchored (ev : pr_event) (word : string) :
  read_pasted (head_ref ev) = Reads word ->
  exists commands,
    release_notes_added ev = Some commands
    /\ ((forall w, commands w = Exited 0 w)
        <-> exists p rest,
              word = p +:+ rest /\ p <> ""
              /\ (matched_by "release_v[0-9.]\+" p
                  \/ matched_by "latest-dep-update-[a-zA-Z0-9]*" p
                  \/ matched_by "min-dep-update-[a-zA-Z0-9]*" p))
    /\ ((~ exists p rest,
             word = p +:+ rest /\ p <> ""
             /\ (matched_by "release_v[0-9.]\+" p
                 \/ matched_by "latest-dep-update-[a-zA-Z0-9]*" p
                 \/ matched_by "min-dep-update-[a-zA-Z0-9]*" p)) ->
        forall w,
          opened (final (commands w)) = opened w ++ [release_notes_path]
          /\ (status (commands w) = 0
              <-> file_contains w release_notes_path (marker (number ev)))).
Proof.
  intros R. eexists. split; [exact (release_notes_added_reads ev word R)|].
  assert (A : exempt word = true
              <-> exists p rest,
                    word = p +:+ rest /\ p <> ""
                    /\ (matched_by "release_v[0-9.]\+" p
                        \/ matched_by "latest-dep-update-[a-zA-Z0-9]*" p
                        \/ matched_by "min-dep-update-[a-zA-Z0-9]*" p)).
  { unfold exempt.
    rewrite !orb_true_iff, is_release_pr_anchored,
      is_latest_dep_update_pr_anchored, is_min_dep_update_pr_anchored.
    split.
    - intros [[(p & r & ? & ? & ?)|(p & r & ? & ? & ?)]|(p & r & ? & ? & ?)];
        exists p, r; auto.
    - intros (p & r & ? & ? & [?|[?|?]]); [left; left|left; right|right];
        exists p, r; auto. }
  rewrite <- A. split; [apply exits_iff_exempt|].
  intros H w. assert (E : exempt word = false) by now destruct (exempt word).
  split; [now apply not_exempt_opens|now apply not_exempt_passes].
Qed.

Lemma exemption_is_anchored_witness :
  exists commands,
    release_notes_added (PrEvent "fix-release_v1.0" "alteryx/evalml" 15)
    = Some commands
    /\ ((forall w, commands w = Exited 0 w)
        <-> exists p rest,
              "fix-release_v1.0" = p +:+ rest /\ p <> ""
              /\ (matched_by "release_v[0-9.]\+" p
                  \/ matched_by "latest-dep-update-[a-zA-Z0-9]*" p
                  \/ matched_by "min-dep-update-[a-zA-Z0-9]*" p))
    /\ ((~ exists p rest,
             "fix-release_v1.0" = p +:+ rest /\ p <> ""
             /\ (matched_by "release_v[0-9.]\+" p
                 \/ matched_by "latest-dep-update-[a-zA-Z0-9]*" p
                 \/ matched_by "min-dep-update-[a-zA-Z0-9]*" p)) ->
        forall w,
          opened (final (commands w)) = opened w ++ [release_notes_path]
          /\ (status (commands w) = 0
              <-> file_contains w release_notes_path (marker 15))).
Proof.
  apply (exemption_is_anchored
           (PrEvent "fix-release_v1.0" "alteryx/evalml" 15)).
  reflexivity.
Defined.

(** C8. The claim does not hold of every head branch. No pattern matches
    a prefix of the name [release_v$#], yet pasted between double quotes
    the shell hands [release_v0] to [expr] and the step leaves with status
    0 without opening the release notes. And the first pattern matches the
    prefix [release_v1] of the name [release_v1] followed by a double
    quote, yet that branch is not exempted: the shell refuses the
    script. *)
Theorem exemption_follows_pasted_text :
  let expanded := PrEvent "release_v$#" "alteryx/evalml" 15 in
  let broken := PrEvent ("release_v1" +:+ double_quote) "alteryx/evalml" 15 in
  (~ exists p rest,
       head_ref expanded = p +:+ rest /\ p <> ""
       /\ (matched_by "release_v[0-9.]\+" p
           \/ matched_by "latest-dep-update-[a-zA-Z0-9]*" p
           \/ matched_by "min-dep-update-[a-zA-Z0-9]*" p))
  /\ (forall w, option_map (fun commands => commands w)
                           (release_notes_added expanded)
                = Some (Exited 0 w))
  /\ (exists rest,
        head_ref broken = "release_v1" +:+ rest
        /\ matched_by "release_v[0-9.]\+" "release_v1")
  /\ (forall w, option_map (fun commands => commands w)
                           (release_notes_added broken)
                = Some (Exited 2 w)).
Proof.
  intros expanded broken. split; [|split; [|split]].
  - intros (p & rest & E & Hp & H).
    assert (X : exempt (head_ref expanded) = true).
    { unfold exempt.
      rewrite !orb_true_iff, is_release_pr_anchored,
        is_latest_dep_update_pr_anchored, is_min_dep_update_pr_anchored.
      destruct H as [H|[H|H]]; [left; left|left; right|right];
        exists p, rest; auto. }
    discriminate X.
  - intros w. reflexivity.
  - exists double_quote. split; [reflexivity|].
    eexists. split; [exact release_pattern|].
    apply matches_lit_app. exists (chars "1"). split; [reflexivity|].
    apply matches_plus_only. split; [discriminate|repeat constructor].
  - intros w. reflexivity.
Qed.


End ReleaseNotesClaims.

(** ** Matrices and triggers *)

Module ActionsFacts.
Import Actions.

(** Two axes give the product of their values. *)
Lemma combinations_two (k1 k2 : string) (vs1 vs2 : list string)
  (combo : list (string * string)) :
  In combo (combinations [(k1, vs1); (k2, vs2)])
  <-> exists v1 v2, In v1 vs1 /\ In v2 vs2 /\ combo = [(k1, v1); (k2, v2)].
Proof.
  cbn [combinations]. rewrite in_flat_map. split.
  - intros (v1 & H1 & H). apply in_map_iff in H as (rest & <- & H).
    apply in_flat_map in H as (v2 & H2 & H).
    destruct H as [<-|[]]. now exists v1, v2.
  - intros (v1 & v2 & H1 & H2 & ->). exists v1. split; [exact H1|].
    apply in_map_iff. exists [(k2, v2)]. split; [reflexivity|].
    apply in_flat_map. exists v2. split; [exact H2|now left].
Qed.

End ActionsFacts.

(** ** The claims about the two workflows *)

Section WorkflowClaims.
Import Actions ActionsFacts ReleaseNotes UnitTests.

Lemma make_line (ctx : string -> string) :
  substitute ctx "make ${{ matrix.command }}"
  = "make " +:+ ctx "matrix.command".
Proof.
  unfold substitute. cbn. rewrite app_nil_r.
  now rewrite string_of_list_ascii_of_string.
Qed.

(** C4. The matrix of the unit-test workflow is the product of the one
    Python version with the four commands: four instances, and the last
    line of the last step of each is [make] with the instance's command as
    target. *)
Theorem unit_test_matrix :
  (forall combo,
      In combo (instances the_job)
      <-> exists v c,
            In v ["3.7"]
            /\ In c ["git-test-automl"; "git-test-modelunderstanding";
                     "git-test-other"; "git-test-dask"]
            /\ combo = [("python_version", v); ("command", c)])
  /\ length (instances the_job) = 4
  /\ NoDup (instances the_job)
  /\ (forall combo,
         step_name (List.last (steps the_job) (Step "" None [] None))
         = "run tests"
         /\ List.last (last_script combo) ""
            = "make " +:+ matrix_context combo "matrix.command")
  /\ map (fun combo => List.last (last_script combo) "") (instances the_job)
     = ["make git-test-automl"; "make git-test-modelunderstanding";
        "make git-test-other"; "make git-test-dask"].
Proof.
  split; [|split; [|split; [|split]]].
  - intros combo. apply combinations_two.
  - reflexivity.
  - apply (bool_decide_unpack _). vm_compute. exact I.
  - intros combo. split; [reflexivity|].
    change (List.last (last_script combo) "")
      with (substitute (matrix_context combo) "make ${{ matrix.command }}").
    apply make_line.
  - reflexivity.
Qed.

(** C5, as stated, fails: the release-notes workflow declares no [push]
    trigger. *)
Lemma release_notes_not_on_push :
  ~ (claimed_triggers unit_tests /\ claimed_triggers release_notes_updated).
Proof. intros [_ (_ & _ & H)]. discriminate H. Qed.

(** C5, amended. The unit-test workflow runs on pull requests that are
    opened or synchronized and on pushes to [main]; the release-notes
    workflow runs on pull requests that are opened or synchronized, and on
    nothing else. *)
Theorem workflow_triggers :
  on unit_tests = [PullRequest ["opened"; "synchronize"]; Push ["main"]]
  /\ on release_notes_updated = [PullRequest ["opened"; "synchronize"]]
  /\ (forall e,
         triggered_by unit_tests e = true
         <-> e = PullRequestEvent "opened"
             \/ e = PullRequestEvent "synchronize" \/ e = PushEvent "main")
  /\ (forall e,
         triggered_by release_notes_updated e = true
         <-> e = PullRequestEvent "opened"
             \/ e = PullRequestEvent "synchronize").
Proof.
  split; [reflexivity|]. split; [reflexivity|]. split.
  - intros [a|b]; cbn; rewrite ?orb_false_r, ?orb_true_iff, ?String.eqb_eq;
      split.
    + intros [->| ->]; auto.
    + intros [H|[H|H]]; inversion H; auto.
    + intros ->; auto.
    + intros [H|[H|H]]; inversion H; auto.
  - intros [a|b]; cbn; rewrite ?orb_false_r, ?orb_true_iff, ?String.eqb_eq;
      split.
    + intros [->| ->]; auto.
    + intros [H|H]; inversion H; auto.
    + discriminate.
    + intros [H|H]; inversion H.
Qed.

End WorkflowClaims.

(** ** The claim about the notebook *)

Section NotebookClaims.
Import Notebook.

(** The notebook also calls into two other packages. *)
Lemma notebook_other_packages :
  operations "urllib" text_input = [["urllib"; "request"; "urlopen"]]
  /\ operations "pandas" text_input = [["pandas"; "read_csv"]].
Proof. split; reflexivity. Qed.

Lemma notebook_evalml_names :
  map operation_name (operations "evalml" text_input)
  = ["split_data"; "AutoMLSearch"; "search"; "rankings"; "best_pipeline";
     "describe_pipeline"; "graph"; "score"; "get_core_objectives";
     "infer_feature_types"].
Proof. reflexivity. Qed.

(** C6, as stated, fails: the notebook calls [graph] on the best pipeline
    and [evalml.objectives.get_core_objectives], which the surface named by
    the spec does not list. *)
Lemma notebook_surface_is_larger :
  ~ (forall name,
        In name (map operation_name (operations "evalml" text_input))
        <-> In name spec_surface).
Proof.
  intros H. destruct (H "get_core_objectives") as [H1 _].
  rewrite notebook_evalml_names in H1.
  assert (Hin : In "get_core_objectives" spec_surface)
    by (apply H1; simpl; tauto).
  simpl in Hin. intuition discriminate.
Qed.

(** C6, amended. The operations of the library the notebook invokes are
    [evalml.preprocessing.split_data], the constructor [AutoMLSearch] with
    [search], [rankings], [best_pipeline] and [describe_pipeline], [graph]
    and [score] of the best pipeline, [evalml.objectives.get_core_objectives]
    and [evalml.utils.infer_feature_types]: the names of the spec, and
    [graph] and [get_core_objectives] besides. *)
Theorem notebook_evalml_surface :
  operations "evalml" text_input
  = [["evalml"; "preprocessing"; "split_data"];
     ["evalml"; "AutoMLSearch"];
     ["evalml"; "AutoMLSearch"; "()"; "search"];
     ["evalml"; "AutoMLSearch"; "()"; "rankings"];
     ["evalml"; "AutoMLSearch"; "()"; "best_pipeline"];
     ["evalml"; "AutoMLSearch"; "()"; "describe_pipeline"];
     ["evalml"; "AutoMLSearch"; "()"; "best_pipeline"; "graph"];
     ["evalml"; "AutoMLSearch"; "()"; "best_pipeline"; "score"];
     ["evalml"; "objectives"; "get_core_objectives"];
     ["evalml"; "utils"; "infer_feature_types"]]
  /\ (forall name,
         In name (map operation_name (operations "evalml" text_input))
         <-> In name (spec_surface ++ ["graph"; "get_core_objectives"])).
Proof.
  split; [reflexivity|]. intros name. rewrite notebook_evalml_names.
  unfold spec_surface. simpl. tauto.
Qed.

End NotebookClaims.

(** ** Further properties of the release-notes workflow *)

Section ReleaseNotesMore.
Import Bre BreFacts Sh ShFacts Actions ReleaseNotes ReleaseNotesFacts.

Lemma exempt_word_extension (word s : string) :
  exempt word = true -> exempt (word +:+ s) = true.
Proof.
  intros H. apply exempt_spec in H. apply exempt_spec.
  destruct H as [(ds & rest & -> & Hne & Hall)
                |[(an & rest & -> & Hall)|(an & rest & -> & Hall)]].
  - left. exists ds, (rest +:+ s). split; [|auto].
    now rewrite !append_assoc.
  - right. left. exists an, (rest +:+ s). split; [|auto].
    now rewrite !append_assoc.
  - right. right. exists an, (rest +:+ s). split; [|auto].
    now rewrite !append_assoc.
Qed.

(** X3. The exemption depends on how the head branch begins and on nothing
    after that: among names of characters the shell reads literally, a
    name that is exempt stays exempt whatever is appended to it. *)
Theorem exempt_extension (ev ev' : pr_event) (s : string) :
  all_chars literal_in_quotes (head_ref ev) ->
  all_chars literal_in_quotes s ->
  head_ref ev' = head_ref ev +:+ s ->
  (exists commands,
     release_notes_added ev = Some commands
     /\ forall w, commands w = Exited 0 w) ->
  exists commands,
    release_notes_added ev' = Some commands
    /\ forall w, commands w = Exited 0 w.
Proof.
  intros Hr Hs E (c & Hc & H0).
  rewrite (release_notes_added_reads ev _ (read_literal _ Hr)) in Hc.
  injection Hc as <-. apply exits_iff_exempt in H0.
  eexists. split.
  - apply release_notes_added_reads, read_literal. rewrite E.
    apply all_chars_app. now split.
  - apply exits_iff_exempt. rewrite E. now apply exempt_word_extension.
Qed.

Lemma exempt_extension_witness :
  exists commands,
    release_notes_added (PrEvent "release_v0.30.2-hotfix" "alteryx/evalml" 9)
    = Some commands
    /\ forall w, commands w = Exited 0 w.
Proof.
  apply (exempt_extension (PrEvent "release_v0.30.2" "alteryx/evalml" 9)
           _ "-hotfix").
  - unfold all_chars. simpl. repeat constructor.
  - unfold all_chars. simpl. repeat constructor.
  - reflexivity.
  - eexists. split; [reflexivity|]. intros w. reflexivity.
Defined.

(** Two texts that begin with different characters are different. *)
Lemma heads_differ (a b x y : string) (c d : ascii) :
  c <> d -> String c a +:+ x <> String d b +:+ y.
Proof.
  intros Hcd E. apply (f_equal chars) in E. rewrite !chars_app in E.
  simpl in E. congruence.
Qed.

Lemma classes_disjoint (b : string) :
  (release_branch b -> latest_dep_update_branch b -> False)
  /\ (release_branch b -> min_dep_update_branch b -> False)
  /\ (latest_dep_update_branch b -> min_dep_update_branch b -> False).
Proof.
  repeat split.
  - intros (ds & r1 & R & _) (an & r2 & L & _).
    rewrite R in L. now apply heads_differ in L.
  - intros (ds & r1 & R & _) (an & r2 & M & _).
    rewrite R in M. now apply heads_differ in M.
  - intros (an & r1 & L & _) (an' & r2 & M & _).
    rewrite L in M. now apply heads_differ in M.
Qed.

(** X5. With a head ref read as a word, the step "Debug PR type" succeeds,
    changes no file and opens none, and writes two lines: one of its four
    messages, then the line with the number of the pull request. The
    message names the class of the word, and the message of a regular pull
    request is written exactly when "Release notes added" goes on to open
    the release notes. *)
Theorem debug_announces (ev : pr_event) (word : string) (w : world) :
  read_pasted (head_ref ev) = Reads word ->
  exists debug msg,
    debug_pr_type ev = Some debug
    /\ debug w
       = Done tt (World (files w)
                        (echoed w ++ [msg; "PR #: " +:+ decimal (number ev)])
                        (opened w))
    /\ (msg = "This is a release PR" <-> release_branch word)
    /\ (msg = "This is a latest dependency update PR"
        <-> latest_dep_update_branch word)
    /\ (msg = "This is a minimum dependency update PR"
        <-> min_dep_update_branch word)
    /\ (msg = "This is a regular PR"
        <-> exists commands,
              release_notes_added ev = Some commands
              /\ forall w', opened (final (commands w'))
                            = opened w' ++ [release_notes_path]).
Proof.
  intros R.
  exists (debug_pr_type_on word (number ev)).
  destruct (classes_disjoint word) as (RL & RM & LM).
  pose proof (is_release_pr_spec word) as SR.
  pose proof (is_latest_dep_update_pr_spec word) as SL.
  pose proof (is_min_dep_update_pr_spec word) as SM.
  set (P := exists commands,
              release_notes_added ev = Some commands
              /\ forall w', opened (final (commands w'))
                            = opened w' ++ [release_notes_path]).
  assert (Hex : exempt word = true -> ~ P).
  { intros E (c & Hc & H).
    rewrite (release_notes_added_reads ev word R) in Hc. injection Hc as <-.
    specialize (H w). rewrite (exempt_exits word (number ev) w E) in H.
    apply (f_equal (@length string)) in H. rewrite length_app in H.
    simpl in H. lia. }
  assert (Hno : exempt word = false -> P).
  { intros E. eexists. split; [exact (release_notes_added_reads ev word R)|].
    intros w'. now apply not_exempt_opens. }
  clearbody P. unfold exempt in Hex, Hno.
  rewrite (debug_pr_type_reads ev word R). unfold debug_pr_type_on.
  revert RL RM LM SR SL SM Hex Hno.
  generalize (release_branch word), (latest_dep_update_branch word),
    (min_dep_update_branch word).
  generalize (is_release_pr word), (is_latest_dep_update_pr word),
    (is_min_dep_update_pr word).
  intros r l m PR PL PM RL RM LM SR SL SM Hex Hno.
  destruct r; [|destruct l; [|destruct m]];
    eexists;
    (split; [reflexivity|]);
    (split; [unfold mbind, sh_bind, run, echo;
             unfold mbind, sh_bind, mret, sh_ret;
             cbn; rewrite <- app_assoc; reflexivity|]);
    cbn [orb] in Hex, Hno;
    repeat split; intros; try discriminate;
    try (match goal with |- ?x = ?x => reflexivity end);
    try tauto;
    try (exfalso; intuition discriminate).
Qed.

Lemma debug_announces_witness :
  let ev := PrEvent "min-dep-update-abc123" "alteryx/evalml" 42 in
  let w := World ∅ [] [] in
  exists debug msg,
    debug_pr_type ev = Some debug
    /\ debug w
       = Done tt (World (files w)
                        (echoed w ++ [msg; "PR #: " +:+ decimal (number ev)])
                        (opened w))
    /\ (msg = "This is a release PR"
        <-> release_branch "min-dep-update-abc123")
    /\ (msg = "This is a latest dependency update PR"
        <-> latest_dep_update_branch "min-dep-update-abc123")
    /\ (msg = "This is a minimum dependency update PR"
        <-> min_dep_update_branch "min-dep-update-abc123")
    /\ (msg = "This is a regular PR"
        <-> exists commands,
              release_notes_added ev = Some commands
              /\ forall w', opened (final (commands w'))
                            = opened w' ++ [release_notes_path]).
Proof.
  intros ev w. apply (debug_announces ev "min-dep-update-abc123" w).
  reflexivity.
Defined.

Lemma contains_inside (m c pre post : string) :
  contains m c -> contains m (pre +:+ c +:+ post).
Proof.
  intros (a & b & ->). exists (pre +:+ a), (b +:+ post).
  now rewrite !append_assoc.
Qed.

(** X8. With a head ref read as a word, a step "Release notes added" that
    succeeds on some release notes still succeeds when text is added
    before and after them. *)
Theorem more_notes_keep_passing (ev : pr_event) (word : string)
  (w w' : world) (content pre post : string) :
  read_pasted (head_ref ev) = Reads word ->
  files w !! release_notes_path = Some content ->
  files w' !! release_notes_path = Some (pre +:+ content +:+ post) ->
  exists commands,
    release_notes_added ev = Some commands
    /\ (status (commands w) = 0 -> status (commands w') = 0).
Proof.
  intros R F F'.
  eexists. split; [exact (release_notes_added_reads ev word R)|].
  intros Hs. destruct (exempt word) eqn:E.
  - now rewrite (exempt_exits word (number ev) w' E).
  - apply (not_exempt_passes word (number ev) w' E).
    apply (not_exempt_passes word (number ev) w E) in Hs as (c & Fc & Hc).
    rewrite F in Fc. injection Fc as <-.
    exists (pre +:+ content +:+ post). split; [exact F'|].
    now apply contains_inside.
Qed.

Lemma more_notes_keep_passing_witness :
  let ev := PrEvent "fix-typo" "alteryx/evalml" 15 in
  let w := World {[ "docs/source/release_notes.rst"
                      := "* Fixed a typo :pr:`15`" ]} [] [] in
  let w' := World {[ "docs/source/release_notes.rst"
                       := "Future Releases" +:+ String newline
                            ("* Fixed a typo :pr:`15`" +:+ String newline
                               "* Added a demo :pr:`16`") ]} [] [] in
  exists commands,
    release_notes_added ev = Some commands
    /\ (status (commands w) = 0 -> status (commands w') = 0).
Proof.
  intros ev w w'.
  apply (more_notes_keep_passing ev "fix-typo" w w'
           "* Fixed a typo :pr:`15`"
           ("Future Releases" +:+ String newline "")
           (String newline "* Added a demo :pr:`16`")); reflexivity.
Defined.

(** X9. With a head ref read as a word that is not exempt, release notes that
    are missing or empty fail the step with status 1: the file is opened
    and no file is changed. *)
Theorem no_notes_fail (ev : pr_event) (word : string) (w : world) :
  read_pasted (head_ref ev) = Reads word ->
  exempt word = false ->
  files w !! release_notes_path = None
  \/ files w !! release_notes_path = Some "" ->
  exists commands,
    release_notes_added ev = Some commands
    /\ commands w
       = Exited 1 (World (files w) (echoed w)
                         (opened w ++ [release_notes_path])).
Proof.
  intros R H F.
  eexists. split; [exact (release_notes_added_reads ev word R)|].
  rewrite (not_exempt_runs word (number ev) w H), check_runs.
  destruct F as [-> | ->]; reflexivity.
Qed.

Lemma no_notes_fail_witness :
  exists commands,
    release_notes_added (PrEvent "fix-typo" "alteryx/evalml" 15)
    = Some commands
    /\ commands (World ∅ [] [])
       = Exited 1 (World ∅ [] [release_notes_path]).
Proof.
  apply (no_notes_fail (PrEvent "fix-typo" "alteryx/evalml" 15) "fix-typo"
           (World ∅ [] [])); [reflexivity|reflexivity|left; reflexivity].
Defined.

End ReleaseNotesMore.

(** ** The texts of the steps, for every head branch *)

Section TextMore.
Import Bre BreFacts Sh ShFacts Actions ReleaseNotes ReleaseNotesFacts Symbolic.

Lemma chars_unlines (ls : list string) :
  chars (unlines ls) = flat_map (fun l => chars l ++ [newline]) ls.
Proof.
  induction ls as [|l ls IH]; [reflexivity|].
  cbn [unlines fold_right flat_map]. rewrite chars_app. cbn [chars].
  fold (unlines ls). rewrite IH. now rewrite <- app_assoc.
Qed.

Lemma flatten_app (holes : nat -> list ascii) (a b : list piece) :
  flatten holes (a ++ b) = flatten holes a ++ flatten holes b.
Proof. apply flat_map_app. Qed.

Lemma subst_sym_correct (ctx : string -> string) (sctx : string -> list piece)
  (holes : nat -> list ascii) :
  (forall e, chars (ctx e) = flatten holes (sctx e)) ->
  forall n s inside,
    length s <= n ->
    subst_from ctx inside s = flatten holes (subst_sym sctx inside s).
Proof.
  intros Hctx. induction n as [|n IH]; intros s inside Hn.
  - destruct s; [reflexivity|simpl in Hn; lia].
  - destruct s as [|c r]; [reflexivity|]. simpl in Hn.
    destruct inside as [acc|].
    + destruct r as [|c2 r']; [reflexivity|]. simpl in Hn.
      change (subst_from ctx (Some acc) (c :: c2 :: r'))
        with (if Ascii.eqb c "}" && Ascii.eqb c2 "}"
              then chars (ctx (string_of_list_ascii (trim (rev acc))))
                   ++ subst_from ctx None r'
              else subst_from ctx (Some (c :: acc)) (c2 :: r')).
      change (subst_sym sctx (Some acc) (c :: c2 :: r'))
        with (if Ascii.eqb c "}" && Ascii.eqb c2 "}"
              then sctx (string_of_list_ascii (trim (rev acc)))
                   ++ subst_sym sctx None r'
              else subst_sym sctx (Some (c :: acc)) (c2 :: r')).
      destruct (Ascii.eqb c "}" && Ascii.eqb c2 "}").
      * rewrite flatten_app, <- Hctx. f_equal. apply IH. lia.
      * apply IH. simpl. lia.
    + destruct r as [|c2 [|c3 r']].
      * reflexivity.
      * reflexivity.
      * simpl in Hn.
        change (subst_from ctx None (c :: c2 :: c3 :: r'))
          with (if Ascii.eqb c "$" && Ascii.eqb c2 "{" && Ascii.eqb c3 "{"
                then subst_from ctx (Some []) r'
                else c :: subst_from ctx None (c2 :: c3 :: r')).
        change (subst_sym sctx None (c :: c2 :: c3 :: r'))
          with (if Ascii.eqb c "$" && Ascii.eqb c2 "{" && Ascii.eqb c3 "{"
                then subst_sym sctx (Some []) r'
                else Lit [c] :: subst_sym sctx None (c2 :: c3 :: r')).
        destruct (Ascii.eqb c "$" && Ascii.eqb c2 "{" && Ascii.eqb c3 "{").
        -- apply IH. lia.
        -- change (flatten holes
                     (Lit [c] :: subst_sym sctx None (c2 :: c3 :: r')))
             with (c :: flatten holes (subst_sym sctx None (c2 :: c3 :: r'))).
           f_equal. apply IH. simpl. lia.
Qed.

Lemma text_sym_correct (ctx : string -> string) (sctx : string -> list piece)
  (holes : nat -> list ascii) (ls : list string) :
  (forall e, chars (ctx e) = flatten holes (sctx e)) ->
  chars (unlines (map (substitute ctx) ls)) = flatten holes (text_sym sctx ls).
Proof.
  intros Hctx. rewrite chars_unlines. unfold text_sym.
  induction ls as [|l ls IH]; [reflexivity|].
  cbn [map flat_map]. rewrite IH, flatten_app, flatten_app. f_equal.
  unfold substitute. rewrite list_ascii_of_string_of_list_ascii.
  cbn [flatten flat_map]. rewrite app_nil_r. f_equal.
  now apply (subst_sym_correct ctx sctx holes Hctx (length (chars l))).
Qed.

Lemma plain_settled (st : lexer) (c : ascii) :
  settled st = true -> plain_char c = true -> lex_char st c = st.
Proof.
  destruct st as [stack [] [] [] []]; try discriminate; intros _ Hc;
    destruct stack as [|[] stack];
    destruct c as [[] [] [] [] [] [] [] []]; try discriminate Hc; reflexivity.
Qed.

Lemma lex_sym_correct (ok : nat -> bool) (holes : nat -> list ascii) :
  (forall k, ok k = true -> Forall (fun c => plain_char c = true) (holes k)) ->
  forall ps st st',
    lex_sym ok st ps = Some st' ->
    fold_left lex_char (flatten holes ps) st = st'.
Proof.
  intros Hok. induction ps as [|[cs|k] ps IH]; intros st st' H.
  - simpl in *. congruence.
  - cbn [flatten flat_map]. rewrite fold_left_app. now apply IH.
  - cbn [lex_sym] in H. destruct (ok k) eqn:K; [|discriminate].
    destruct (settled st) eqn:S; [|discriminate]. cbn [andb] in H.
    cbn [flatten flat_map]. rewrite fold_left_app.
    replace (fold_left lex_char (holes k) st) with st; [now apply IH|].
    specialize (Hok k K). induction Hok as [|c l Hc _ IHl]; [reflexivity|].
    cbn [fold_left]. now rewrite plain_settled.
Qed.

Lemma decimal_plain (n : nat) :
  Forall (fun c => plain_char c = true) (chars (decimal n)).
Proof.
  eapply List.Forall_impl; [|apply decimal_digits].
  intros c Hc. simpl in Hc.
  repeat (destruct Hc as [<-|Hc]; [reflexivity|]). destruct Hc.
Qed.

(** X10. When the head branch is made of letters, digits and the
    characters [- _ . /], the texts of both steps, with the expressions of
    the runner pasted in, leave no quote and no command substitution open:
    for such branches the scripts that the shell reads are the scripts as
    written. *)
Theorem plain_ref_scripts_closed (ev : pr_event) :
  all_chars plain_char (head_ref ev) ->
  opened_by (lex (shell_text (Script debug_pr_type_text debug_pr_type) ev))
  = []
  /\ opened_by
       (lex (shell_text
               (Script release_notes_added_text release_notes_added) ev))
     = [].
Proof.
  intros H.
  set (sctx := fun e : string =>
     if String.eqb e "github.event.pull_request.head.ref" then [Hole 0]
     else if String.eqb e "github.event.pull_request.head.repo.full_name"
     then [Hole 2]
     else if String.eqb e "github.event.number" then [Hole 1] else []).
  set (holes := fun k : nat =>
     match k with
     | 0 => chars (head_ref ev)
     | 1 => chars (decimal (number ev))
     | _ => chars (head_repo_full_name ev)
     end).
  assert (Hctx : forall e, chars (github_context ev e) = flatten holes (sctx e)).
  { intros e. unfold github_context, sctx.
    repeat (destruct (String.eqb e _); [cbn; now rewrite app_nil_r|]).
    reflexivity. }
  assert (Hok : forall k, Nat.ltb k 2 = true ->
                          Forall (fun c => plain_char c = true) (holes k)).
  { intros [|[|k]] Hk; [exact H|apply decimal_plain|discriminate]. }
  split; unfold lex, shell_text;
    rewrite (text_sym_correct _ sctx holes _ Hctx);
    rewrite (lex_sym_correct _ holes Hok _ _
               (Lexer [] false false false true));
    solve [reflexivity|vm_compute; reflexivity].
Qed.

Lemma plain_ref_scripts_closed_witness :
  opened_by (lex (shell_text (Script debug_pr_type_text debug_pr_type)
                    (PrEvent "user/fix-typo_2.0" "alteryx/evalml" 15)))
  = []
  /\ opened_by
       (lex (shell_text
               (Script release_notes_added_text release_notes_added)
               (PrEvent "user/fix-typo_2.0" "alteryx/evalml" 15)))
     = [].
Proof.
  apply (plain_ref_scripts_closed
           (PrEvent "user/fix-typo_2.0" "alteryx/evalml" 15)).
  unfold all_chars. simpl. repeat constructor.
Defined.

(** X11. A double quote anywhere in an otherwise plain head branch leaves
    both scripts unbalanced once the runner has pasted the branch in: the
    shell reaches the end of the text of [Debug PR type] with five, and of
    [Release notes added] with six, quotes and command substitutions still
    open. *)
Theorem quote_in_ref_opens_scripts (ev : pr_event) (p q : string) :
  all_chars plain_char p -> all_chars plain_char q ->
  head_ref ev = p +:+ double_quote +:+ q ->
  opened_by (lex (shell_text (Script debug_pr_type_text debug_pr_type) ev))
  = [CommandSubst; DoubleQuote; CommandSubst; DoubleQuote; CommandSubst]
  /\ opened_by
       (lex (shell_text
               (Script release_notes_added_text release_notes_added) ev))
     = [DoubleQuote; CommandSubst; DoubleQuote; CommandSubst; DoubleQuote;
        CommandSubst].
Proof.
  intros Hp Hq E.
  set (sctx := fun e : string =>
     if String.eqb e "github.event.pull_request.head.ref"
     then [Hole 0; Lit (chars double_quote); Hole 1]
     else if String.eqb e "github.event.pull_request.head.repo.full_name"
     then [Hole 3]
     else if String.eqb e "github.event.number" then [Hole 2] else []).
  set (holes := fun k : nat =>
     match k with
     | 0 => chars p
     | 1 => chars q
     | 2 => chars (decimal (number ev))
     | _ => chars (head_repo_full_name ev)
     end).
  assert (Hctx : forall e, chars (github_context ev e) = flatten holes (sctx e)).
  { intros e. unfold github_context, sctx.
    destruct (String.eqb e _).
    { rewrite E, !chars_app. cbn. now rewrite app_nil_r. }
    repeat (destruct (String.eqb e _); [cbn; now rewrite app_nil_r|]).
    reflexivity. }
  assert (Hok : forall k, Nat.ltb k 3 = true ->
                          Forall (fun c => plain_char c = true) (holes k)).
  { intros [|[|[|k]]] Hk; [exact Hp|exact Hq|apply decimal_plain|discriminate]. }
  split; unfold lex, shell_text;
    rewrite (text_sym_correct _ sctx holes _ Hctx).
  - rewrite (lex_sym_correct _ holes Hok _ _
               (Lexer [CommandSubst; DoubleQuote; CommandSubst; DoubleQuote;
                       CommandSubst] false false false true));
      solve [reflexivity|vm_compute; reflexivity].
  - rewrite (lex_sym_correct _ holes Hok _ _
               (Lexer [DoubleQuote; CommandSubst; DoubleQuote; CommandSubst;
                       DoubleQuote; CommandSubst] false false false false));
      solve [reflexivity|vm_compute; reflexivity].
Qed.

Lemma quote_in_ref_opens_scripts_witness :
  let ev := PrEvent ("fix" +:+ double_quote +:+ "typo") "alteryx/evalml" 15 in
  opened_by (lex (shell_text (Script debug_pr_type_text debug_pr_type) ev))
  = [CommandSubst; DoubleQuote; CommandSubst; DoubleQuote; CommandSubst]
  /\ opened_by
       (lex (shell_text
               (Script release_notes_added_text release_notes_added) ev))
     = [DoubleQuote; CommandSubst; DoubleQuote; CommandSubst; DoubleQuote;
        CommandSubst].
Proof.
  intros ev. apply (quote_in_ref_opens_scripts ev "fix" "typo").
  - unfold all_chars. simpl. repeat constructor.
  - unfold all_chars. simpl. repeat constructor.
  - reflexivity.
Defined.

(** A value of plain characters around one double quote. *)
Lemma lone_quote_split (value : string) :
  lone_quote value = true ->
  exists p q, value = p +:+ double_quote +:+ q
              /\ all_chars plain_char p /\ all_chars plain_char q.
Proof.
  unfold lone_quote, all_chars. intros H.
  apply andb_true_iff in H as [Hall Hn]. apply Nat.eqb_eq in Hn.
  assert (G : forall cs k,
             forallb (fun c => plain_char c || Ascii.eqb c "034") cs = true ->
             count_occ Ascii.ascii_dec cs "034"%char = k ->
             (k = 0 -> Forall (fun c => plain_char c = true) cs)
             /\ (k = 1 ->
                 exists a b, cs = a ++ "034"%char :: b
                             /\ Forall (fun c => plain_char c = true) a
                             /\ Forall (fun c => plain_char c = true) b)).
  { induction cs as [|c cs IH]; intros k Hf Hk.
    - split; [constructor|]. intros ->. discriminate.
    - cbn [forallb] in Hf. apply andb_true_iff in Hf as [Hc Hf].
      cbn [count_occ] in Hk.
      destruct (Ascii.ascii_dec c "034") as [->|Hne].
      + destruct k as [|k]; [discriminate|]. injection Hk as Hk.
        destruct (IH k Hf Hk) as [I0 _]. split; [discriminate|].
        intros K. exists [], cs. repeat split; [constructor|].
        apply I0. lia.
      + assert (Hp : plain_char c = true).
        { apply orb_true_iff in Hc as [Hc|Hc]; [exact Hc|].
          apply Ascii.eqb_eq in Hc. contradiction. }
        destruct (IH k Hf Hk) as [I0 I1]. split.
        * intros K. constructor; auto.
        * intros K. destruct (I1 K) as (a & b & -> & Ha & Hb).
          exists (c :: a), b. repeat split; auto. }
  destruct (G _ 1 Hall Hn) as [_ G1].
  destruct (G1 eq_refl) as (a & b & E & Ha & Hb).
  exists (string_of_list_ascii a), (string_of_list_ascii b).
  rewrite !list_ascii_of_string_of_list_ascii. split; [|auto].
  apply chars_inj.
  now rewrite !chars_app, !list_ascii_of_string_of_list_ascii, E.
Qed.

Lemma lone_quote_unclosed (ev : pr_event) (p q : string) :
  all_chars plain_char p -> all_chars plain_char q ->
  head_ref ev = p +:+ double_quote +:+ q ->
  unclosed (shell_text (Script debug_pr_type_text debug_pr_type) ev) = true
  /\ unclosed
       (shell_text (Script release_notes_added_text release_notes_added) ev)
     = true.
Proof.
  intros Hp Hq E.
  set (sctx := fun e : string =>
     if String.eqb e "github.event.pull_request.head.ref"
     then [Hole 0; Lit (chars double_quote); Hole 1]
     else if String.eqb e "github.event.pull_request.head.repo.full_name"
     then [Hole 3]
     else if String.eqb e "github.event.number" then [Hole 2] else []).
  set (holes := fun k : nat =>
     match k with
     | 0 => chars p
     | 1 => chars q
     | 2 => chars (decimal (number ev))
     | _ => chars (head_repo_full_name ev)
     end).
  assert (Hctx : forall e, chars (github_context ev e) = flatten holes (sctx e)).
  { intros e. unfold github_context, sctx.
    destruct (String.eqb e _).
    { rewrite E, !chars_app. cbn. now rewrite app_nil_r. }
    repeat (destruct (String.eqb e _); [cbn; now rewrite app_nil_r|]).
    reflexivity. }
  assert (Hok : forall k, Nat.ltb k 3 = true ->
                          Forall (fun c => plain_char c = true) (holes k)).
  { intros [|[|[|k]]] Hk; [exact Hp|exact Hq|apply decimal_plain|discriminate]. }
  split; unfold unclosed, lex, shell_text;
    rewrite (text_sym_correct _ sctx holes _ Hctx).
  - rewrite (lex_sym_correct _ holes Hok _ _
               (Lexer [CommandSubst; DoubleQuote; CommandSubst; DoubleQuote;
                       CommandSubst] false false false true));
      solve [reflexivity|vm_compute; reflexivity].
  - rewrite (lex_sym_correct _ holes Hok _ _
               (Lexer [DoubleQuote; CommandSubst; DoubleQuote; CommandSubst;
                       DoubleQuote; CommandSubst] false false false false));
      solve [reflexivity|vm_compute; reflexivity].
Qed.

(** X6. Whenever the pasted head ref is read as leaving the quotes
    unbalanced, the texts of both steps reach their end with a quote or a
    command substitution open: the steps are refused with status 2 on
    texts that the shell cannot close. *)
Theorem unbalanced_ref_scripts_unclosed (ev : pr_event) :
  read_pasted (head_ref ev) = Unbalanced ->
  unclosed (shell_text (Script debug_pr_type_text debug_pr_type) ev) = true
  /\ unclosed
       (shell_text (Script release_notes_added_text release_notes_added) ev)
     = true
  /\ forall w,
       option_map (fun commands => commands w) (debug_pr_type ev)
       = Some (Exited 2 w)
       /\ option_map (fun commands => commands w) (release_notes_added ev)
          = Some (Exited 2 w)
       /\ job_status ev w = Some 2.
Proof.
  intros R.
  assert (L : lone_quote (head_ref ev) = true).
  { unfold read_pasted in R.
    destruct (expand_quoted _); [discriminate|].
    now destruct (lone_quote (head_ref ev)). }
  destruct (lone_quote_split _ L) as (p & q & E & Hp & Hq).
  destruct (lone_quote_unclosed ev p q Hp Hq E) as [U1 U2].
  split; [exact U1|]. split; [exact U2|]. intros w.
  unfold job_status, debug_pr_type, release_notes_added, pasting.
  cbn [flat_map scripts_of jobs release_notes_updated steps Actions.script
       app run_scripts meaning].
  unfold debug_pr_type, release_notes_added, pasting. rewrite R.
  repeat split; reflexivity.
Qed.

Lemma unbalanced_ref_scripts_unclosed_witness :
  let ev := PrEvent ("release_v1" +:+ double_quote) "alteryx/evalml" 15 in
  unclosed (shell_text (Script debug_pr_type_text debug_pr_type) ev) = true
  /\ unclosed
       (shell_text (Script release_notes_added_text release_notes_added) ev)
     = true
  /\ forall w,
       option_map (fun commands => commands w) (debug_pr_type ev)
       = Some (Exited 2 w)
       /\ option_map (fun commands => commands w) (release_notes_added ev)
          = Some (Exited 2 w)
       /\ job_status ev w = Some 2.
Proof.
  intros ev. apply (unbalanced_ref_scripts_unclosed ev). reflexivity.
Defined.

End TextMore.

(** ** Further properties of the unit-test workflow *)

Section UnitTestsMore.
Import Actions ActionsFacts UnitTests.

Lemma subst_from_no_dollar (ctx : string -> string) (cs : list ascii) :
  Forall (fun c => Ascii.eqb c "$" = false) cs ->
  subst_from ctx None cs = cs.
Proof.
  induction 1 as [|c r Hc _ IH]; [reflexivity|].
  assert (E : subst_from ctx None (c :: r) = c :: subst_from ctx None r).
  { destruct r as [|c2 [|c3 r']]; try reflexivity.
    change (subst_from ctx None (c :: c2 :: c3 :: r'))
      with (if Ascii.eqb c "$" && Ascii.eqb c2 "{" && Ascii.eqb c3 "{"
            then subst_from ctx (Some []) r'
            else c :: subst_from ctx None (c2 :: c3 :: r')).
    now rewrite Hc. }
  now rewrite E, IH.
Qed.

Lemma substitute_no_dollar (ctx : string -> string) (s : string) :
  forallb (fun c => negb (Ascii.eqb c "$")) (chars s) = true ->
  substitute ctx s = s.
Proof.
  intros H. unfold substitute. rewrite subst_from_no_dollar.
  - apply string_of_list_ascii_of_string.
  - apply List.Forall_forall. intros c Hc.
    rewrite forallb_forall in H. apply H in Hc. now apply negb_true_iff.
Qed.

(** X12. Of the steps of the unit-test job only the last one runs a script
    that depends on the matrix: the script of every step before it is the
    same text in every instance, whatever the combination. *)
Theorem setup_steps_same_in_every_instance
  (combo : list (string * string)) (s : step (list string))
  (sc : list string) :
  In s (removelast (steps the_job)) ->
  script s = Some sc ->
  rendered combo sc = sc.
Proof.
  intros Hin Hs. unfold rendered.
  assert (H : forallb (fun l => forallb (fun c => negb (Ascii.eqb c "$"))
                                        (chars l)) sc = true).
  { cbn in Hin.
    repeat (destruct Hin as [<-|Hin];
            [cbn in Hs; first [discriminate Hs
                              |injection Hs as <-; reflexivity]|]).
    destruct Hin. }
  clear Hin Hs. induction sc as [|l sc IH]; [reflexivity|].
  cbn [forallb] in H. apply andb_true_iff in H as [Hl H].
  cbn [map]. now rewrite substitute_no_dollar, IH.
Qed.

Lemma setup_steps_same_in_every_instance_witness :
  rendered [("python_version", "3.7"); ("command", "git-test-dask")]
           ["sudo apt update && sudo apt install -y graphviz"]
  = ["sudo apt update && sudo apt install -y graphviz"].
Proof.
  apply (setup_steps_same_in_every_instance _
           (Step "Update apt and install Graphviz" None []
              (Some ["sudo apt update && sudo apt install -y graphviz"])));
    [cbn; tauto|reflexivity].
Defined.

Lemma job_name_rendered (ctx : string -> string) :
  substitute ctx (job_name the_job)
  = ctx "matrix.python_version" +:+ " min dep " +:+ ctx "matrix.command".
Proof.
  unfold substitute. cbn. rewrite app_nil_r.
  rewrite ShFacts.string_of_app, string_of_list_ascii_of_string.
  cbn [string_of_list_ascii]. now rewrite string_of_list_ascii_of_string.
Qed.

Lemma append_cancel (a x y : string) : a +:+ x = a +:+ y -> x = y.
Proof.
  intros E. apply ShFacts.chars_inj. apply (f_equal chars) in E.
  rewrite !ShFacts.chars_app in E. now apply app_inv_head in E.
Qed.

(** X13. The displayed name of an instance is its Python version, the
    words [min dep], and its command.  Two instances with the same version
    and the same name have the same command, and the names of the instances
    of the declared matrix are pairwise different. *)
Theorem job_names (c1 c2 : list (string * string)) :
  substitute (matrix_context c1) (job_name the_job)
  = matrix_context c1 "matrix.python_version" +:+ " min dep "
    +:+ matrix_context c1 "matrix.command"
  /\ (matrix_context c1 "matrix.python_version"
      = matrix_context c2 "matrix.python_version" ->
      substitute (matrix_context c1) (job_name the_job)
      = substitute (matrix_context c2) (job_name the_job) ->
      matrix_context c1 "matrix.command" = matrix_context c2 "matrix.command")
  /\ NoDup (map (fun c => substitute (matrix_context c) (job_name the_job))
                (instances the_job)).
Proof.
  split; [apply job_name_rendered|]. split.
  - rewrite !job_name_rendered. intros -> E.
    apply append_cancel in E. now apply append_cancel in E.
  - apply (bool_decide_unpack _). vm_compute. exact I.
Qed.

End UnitTestsMore.

Section NotebookMore.
Import Notebook NotebookNames.

(** X15. The notebook can be run from the top up to any cell: no cell reads
    a name that an earlier statement has not imported or assigned, apart
    from [True], [print] and [display]. *)
Theorem cells_read_bound_names (k : nat) :
  unbound builtins (concat (firstn k text_input)) = [].
Proof.
  do 19 (destruct k as [|k]; [reflexivity|]).
  rewrite firstn_all2 by (simpl; lia). reflexivity.
Qed.

End NotebookMore.
